(** * recent(1): the recency-matching engine of [recent.go]

    A shallow embedding of the duration accumulator ([overflowCheck],
    [allZero], [toDuration]), of the configuration part of [main] and of
    the [Matcher] with its three methods [dostat], [Match] and [Readdir],
    then of the flag listing ([usages] with [Len], [Swap] and [Less], and
    the line that [flag.Usage] builds for a flag) and of the output and
    exit status of [main], followed by the properties of these functions.

    Conventions.
    - Go's [uint] is taken on a 64-bit platform: a [Z] in [0, 2^64) whose
      additions wrap modulo [2^64].
    - [time.Duration] is an [int64] count of nanoseconds: a [Z] in
      [-2^63, 2^63) whose arithmetic wraps in two's complement.
    - The callbacks [m.Out] and [m.Log] are recorded as events of a trace,
      in the order in which the code calls them.
    - The operating system (os.Stat, os.Open, File.Readdir) is a value of
      type [FS]; the functions of path/filepath and time that the code
      calls are embedded after Go's standard library, Unix flavour. *)

From Stdlib Require Import ZArith List String Ascii Bool Lia Morphisms Setoid.
From Stdlib Require Import Permutation.
Import ListNotations.

Open Scope Z_scope.

(* ================================================================== *)
(** ** Machine integers *)

Module GoInt.

(** [uint] on a 64-bit platform. *)
Definition uint_bits : Z := 64.
Definition uint_modulus : Z := 2 ^ uint_bits.
Definition maxUint : Z := uint_modulus - 1.

Definition is_uint (z : Z) : Prop := 0 <= z < uint_modulus.

Definition wrap_uint (z : Z) : Z := z mod uint_modulus.

(** [a + b] and [a / b] on [uint]. *)
Definition uadd (a b : Z) : Z := wrap_uint (a + b).
Definition udiv (a b : Z) : Z := wrap_uint (a / b).

(** [int64], two's complement. *)
Definition minInt64 : Z := - 2 ^ 63.
Definition maxInt64 : Z := 2 ^ 63 - 1.

Definition is_int64 (z : Z) : Prop := minInt64 <= z <= maxInt64.

Definition wrap_int64 (z : Z) : Z := (z + 2 ^ 63) mod 2 ^ 64 - 2 ^ 63.

(** Congruence modulo [2^64], to rewrite under sums and products. *)
Definition eqm64 (a b : Z) : Prop := a mod 2 ^ 64 = b mod 2 ^ 64.

End GoInt.

(* ================================================================== *)
(** ** package time: durations *)

Module time.

Import GoInt.

(** [type Duration int64], in nanoseconds. *)
Definition Duration : Type := Z.

Definition Nanosecond : Duration := 1.
Definition Microsecond : Duration := 1000 * Nanosecond.
Definition Millisecond : Duration := 1000 * Microsecond.
Definition Second : Duration := 1000 * Millisecond.
Definition Minute : Duration := 60 * Second.
Definition Hour : Duration := 60 * Minute.

Definition minDuration : Duration := minInt64.
Definition maxDuration : Duration := maxInt64.

(** The conversion [time.Duration(x)] of a [uint]: the same 64 bits read
    as a signed number. *)
Definition of_uint (x : Z) : Duration := wrap_int64 x.

(** [a * b] and [a + b] on [Duration]. *)
Definition mul (a b : Duration) : Duration := wrap_int64 (a * b).
Definition add (a b : Duration) : Duration := wrap_int64 (a + b).

(** [type Time]: an instant, as nanoseconds since the epoch.  The
    modification times of files carry no monotonic clock reading, so
    [Sub] is the difference of the wall clock readings. *)
Definition Time : Type := Z.

(** [func (t Time) Sub(u Time) Duration]: the difference [t - u]; when it
    exceeds what a [Duration] stores, the maximum (or minimum) duration
    is returned. *)
Definition Sub (t u : Time) : Duration :=
  let d := t - u in
  if d <? minDuration then minDuration
  else if maxDuration <? d then maxDuration
  else d.

End time.

(* ================================================================== *)
(** ** The duration accumulator *)

(** A function that may end the process with [log.Fatal]. *)
Inductive outcome (A : Type) : Type :=
| Ok (a : A)
| Fatal (msg : string).
Arguments Ok {A} a.
Arguments Fatal {A} msg.

Section Accumulator.

Import GoInt.

(** [func overflowCheck(years, months, days, hours, minutes *uint)]. *)
Definition overflowCheck (years months days hours minutes : Z) : outcome unit :=
  let y := years in
  let M := udiv months 12 in
  let d := udiv days 365 in
  let h := udiv hours (24 * 365) in
  let m := udiv minutes (60 * 24 * 365) in
  if 290 <? uadd (uadd (uadd (uadd y M) d) h) m
  then Fatal "Maximum duration is 290 years. How old are your files?"
  else Ok tt.

(** [func allZero(xs ...*uint) bool]. *)
Fixpoint allZero (xs : list Z) : bool :=
  match xs with
  | [] => true
  | x :: xs' => if negb (x =? 0) then false else allZero xs'
  end.

(** The constants of [toDuration]. *)
Definition day : time.Duration := 24 * time.Hour.
Definition month : time.Duration := 30 * day.
Definition year : time.Duration := 365 * day.

(** [func toDuration(years, months, days, hours, mins *uint) time.Duration]. *)
Definition toDuration (years months days hours mins : Z) : time.Duration :=
  let d := time.mul year (time.of_uint years) in
  let d := time.add d (time.mul month (time.of_uint months)) in
  let d := time.add d (time.mul day (time.of_uint days)) in
  let d := time.add d (time.mul time.Hour (time.of_uint hours)) in
  let d := time.add d (time.mul time.Minute (time.of_uint mins)) in
  d.

(** The part of [main] between [flag.Parse()] and the assignment of
    [matcher.Recent]: the two fatal checks, the default of one day, and
    the threshold. *)
Definition main_Recent (print0 noPrint : bool)
           (years months days hours mins : Z) : outcome time.Duration :=
  match overflowCheck years months days hours mins with
  | Fatal msg => Fatal msg
  | Ok _ =>
      if print0 && noPrint
      then Fatal "-print0 and -q are fundamentally opposed ideas."
      else
        let days := if allZero [years; months; days; hours; mins] then 1 else days in
        Ok (toDuration years months days hours mins)
  end.

(** The sum the duration is meant to be, in unbounded integers. *)
Definition exact_total (years months days hours mins : Z) : Z :=
  mins * time.Minute + hours * time.Hour + days * day
  + months * month + years * year.

(** The year-equivalent sum of the guard, in unbounded integers. *)
Definition year_equivalent (years months days hours minutes : Z) : Z :=
  years + months / 12 + days / 365 + hours / (24 * 365)
  + minutes / (60 * 24 * 365).

End Accumulator.

(* ================================================================== *)
(** ** package path/filepath, Unix *)

Module filepath.

Open Scope string_scope.

Definition Separator : ascii := "/"%char.

(** [os.IsPathSeparator]. *)
Definition IsPathSeparator (c : ascii) : bool := Ascii.eqb c Separator.

Definition is_dot (c : ascii) : bool := Ascii.eqb c "."%char.

(** Drop the elements of the front of [l] that satisfy [p]. *)
Fixpoint drop_while (p : ascii -> bool) (l : list ascii) : list ascii :=
  match l with
  | [] => []
  | c :: l' => if p c then drop_while p l' else l
  end.

(** The longest prefix of [l] whose elements satisfy [p]. *)
Fixpoint take_while (p : ascii -> bool) (l : list ascii) : list ascii :=
  match l with
  | [] => []
  | c :: l' => if p c then c :: take_while p l' else []
  end.

(** [func Base(path string) string].  The two loops of the Go function
    run from the last byte of [path] towards the first, so they are
    written here on the reversed path:
    - [for len(path) > 0 && os.IsPathSeparator(path[len(path)-1])] strips
      the trailing separators;
    - [for i >= 0 && !os.IsPathSeparator(path[i])] finds the last
      element, which [path[i+1:]] keeps. *)
Definition Base (path : string) : string :=
  if path =? "" then "."
  else
    let r := rev (list_ascii_of_string path) in
    let r := drop_while IsPathSeparator r in
    let r := take_while (fun c => negb (IsPathSeparator c)) r in
    let path := string_of_list_ascii (rev r) in
    if path =? "" then String Separator "" else path.

(** The [".."] case of [Clean] when it can backtrack:
    [out.w--; for out.w > dotdot && !os.IsPathSeparator(out.index(out.w)) { out.w-- }].
    The buffer is kept last byte first; [h :: tl] is a buffer whose byte
    at index [w = length tl] is [h]. *)
Fixpoint backtrack (dotdot : nat) (out : list ascii) : list ascii :=
  match out with
  | [] => []
  | h :: tl =>
      if (dotdot <? List.length tl)%nat && negb (IsPathSeparator h)
      then backtrack dotdot tl
      else tl
  end.

(** Is the read position at the end of the path or at a separator? *)
Definition at_end_or_sep (rest : list ascii) : bool :=
  match rest with
  | [] => true
  | c :: _ => IsPathSeparator c
  end.

(** The main loop of [Clean], [for r < n { switch ... }].  [rest] is
    [path[r:]]; [out] is the output buffer, last byte first, so that
    [out.w] is its length; [copying] is set while the inner loop of the
    default case, which copies one path element, is running. *)
Fixpoint clean_loop (rooted : bool) (rest : list ascii) (copying : bool)
         (out : list ascii) (dotdot : nat) : list ascii :=
  match rest with
  | [] => out
  | c :: t =>
      if copying then
        (* for ; r < n && !os.IsPathSeparator(path[r]); r++ { out.append(path[r]) } *)
        if IsPathSeparator c
        then clean_loop rooted t false out dotdot
        else clean_loop rooted t true (c :: out) dotdot
      else if IsPathSeparator c then
        (* empty path element *)
        clean_loop rooted t false out dotdot
      else if is_dot c && at_end_or_sep t then
        (* . element *)
        clean_loop rooted t false out dotdot
      else
        let element :=
          (* real path element: add slash if needed, then copy it *)
          let w := List.length out in
          let out :=
            if (rooted && negb (w =? 1)%nat) || (negb rooted && negb (w =? 0)%nat)
            then Separator :: out else out in
          clean_loop rooted t true (c :: out) dotdot in
        match t with
        | c' :: t' =>
            if is_dot c && is_dot c' && at_end_or_sep t' then
              (* .. element: remove to last separator *)
              if (dotdot <? List.length out)%nat then
                (* can backtrack *)
                clean_loop rooted t' false (backtrack dotdot out) dotdot
              else if negb rooted then
                (* cannot backtrack, but not rooted, so append .. element *)
                let out :=
                  if (0 <? List.length out)%nat then Separator :: out else out in
                let out := "."%char :: "."%char :: out in
                clean_loop rooted t' false out (List.length out)
              else clean_loop rooted t' false out dotdot
            else element
        | [] => element
        end
  end.

(** [func Clean(path string) string]. *)
Definition Clean (path : string) : string :=
  match list_ascii_of_string path with
  | [] => "."
  | c :: t =>
      let rooted := IsPathSeparator c in
      let out :=
        if rooted
        then clean_loop rooted t false [Separator] 1
        else clean_loop rooted (c :: t) false [] 0 in
      (* Turn empty string into "." *)
      match out with
      | [] => "."
      | _ => string_of_list_ascii (rev out)
      end
  end.

(** [func Join(elem ...string) string]: the elements from the first
    non-empty one on, joined with separators and cleaned. *)
Fixpoint Join (elem : list string) : string :=
  match elem with
  | [] => ""
  | e :: rest =>
      if e =? "" then Join rest
      else Clean (String.concat (String Separator "") elem)
  end.

End filepath.

(* ================================================================== *)
(** ** The operating system *)

(** [error] values.  [io.EOF] is the one the code tells apart. *)
Inductive error : Type :=
| io_EOF
| Err (msg : string).

Definition error_eqb (e1 e2 : error) : bool :=
  match e1, e2 with
  | io_EOF, io_EOF => true
  | Err m1, Err m2 => String.eqb m1 m2
  | _, _ => false
  end.

(** [os.FileInfo], with the three methods the code calls. *)
Record FileInfo : Type := mkFileInfo {
  Name : string;
  ModTime : time.Time;
  IsDir : bool
}.

(** An open directory [*os.File]: the results that the calls of
    [d.Readdir(100)] still to come return, in order, each a slice of
    entries and an error ([None] is [nil]).  A directory is finite: once
    the results are used up, [Readdir] returns no entry and [io.EOF]. *)
Definition File : Type := list (list FileInfo * option error).

Definition File_Readdir (d : File) : (list FileInfo * option error) * File :=
  match d with
  | [] => (([], Some io_EOF), [])
  | r :: d' => (r, d')
  end.

(** The file system as the program sees it. *)
Record FS : Type := mkFS {
  os_Stat : string -> FileInfo + error;
  os_Open : string -> File + error
}.

(* ================================================================== *)
(** ** Effects: the trace of callback calls, and run-time panics *)

Inductive event : Type :=
| EOut (name : string)   (* a call m.Out(name) *)
| ELog (err : error).    (* a call m.Log(err) *)

(** A computation yields the calls it made, and its result unless it
    panicked. *)
Definition Eff (A : Type) : Type := (list event * option A)%type.

Definition ret {A : Type} (a : A) : Eff A := ([], Some a).

Definition panic {A : Type} : Eff A := ([], None).

Definition bind {A B : Type} (c : Eff A) (k : A -> Eff B) : Eff B :=
  match c with
  | (t, None) => (t, None)
  | (t, Some a) => let (t', r) := k a in (t ++ t', r)
  end.

Notation "x <- c ;; k" := (bind c (fun x => k))
  (at level 61, c at next level, right associativity).
Notation "c ;;; k" := (bind c (fun _ => k))
  (at level 61, right associativity).

(** [for _, x := range xs { body }]. *)
Fixpoint for_range {A : Type} (xs : list A) (body : A -> Eff unit) : Eff unit :=
  match xs with
  | [] => ret tt
  | x :: xs' => body x ;;; for_range xs' body
  end.

(** [s[i]]: indexing a string out of range panics. *)
Definition index (s : string) (i : nat) : Eff ascii :=
  match String.get i s with
  | Some c => ret c
  | None => panic
  end.

Definition trace {A : Type} (c : Eff A) : list event := fst c.

Definition panics {A : Type} (c : Eff A) : bool :=
  match snd c with
  | None => true
  | Some _ => false
  end.

(** The names passed to [m.Out], in order. *)
Fixpoint outputs (t : list event) : list string :=
  match t with
  | [] => []
  | EOut n :: t' => n :: outputs t'
  | ELog _ :: t' => outputs t'
  end.

(** The errors passed to [m.Log], in order. *)
Fixpoint logged (t : list event) : list error :=
  match t with
  | [] => []
  | EOut _ :: t' => logged t'
  | ELog e :: t' => e :: logged t'
  end.

(* ================================================================== *)
(** ** The matcher *)

(** [type Matcher struct]; the fields [Out] and [Log] are the two event
    constructors. *)
Record Matcher : Type := mkMatcher {
  Invert : bool;
  IncludeDots : bool;
  NoSlash : bool;
  Recent : time.Duration;
  Now : time.Time
}.

Definition Out (name : string) : Eff unit := ([EOut name], Some tt).
Definition Log (err : error) : Eff unit := ([ELog err], Some tt).

(** [func (m *Matcher) dostat(skipdotcheck bool, prefix, name string, fi os.FileInfo)]. *)
Definition dostat (m : Matcher) (skipdotcheck : bool) (prefix name : string)
           (fi : FileInfo) : Eff unit :=
  skip <- (if negb skipdotcheck && negb (IncludeDots m)
           then c <- index (filepath.Base name) 0 ;; ret (Ascii.eqb c ".")
           else ret false) ;;
  if skip then ret tt
  else
    let hit := time.Sub (Now m) (ModTime fi) <? Recent m in
    let hit := if Invert m then negb hit else hit in
    if hit then
      let name := filepath.Clean (filepath.Join [prefix; name]) in
      let name := if IsDir fi && negb (NoSlash m) then (name ++ "/")%string else name in
      Out name
    else ret tt.

(** The loop of [Readdir], on the open directory [d]. *)
Fixpoint Readdir_loop (m : Matcher) (dname : string) (d : File) : Eff unit :=
  match d with
  | [] =>
      (* no entry and io.EOF *)
      ret tt
  | (fis, err) :: d' =>
      for_range fis (fun fi => dostat m false dname (Name fi) fi) ;;;
      match err with
      | Some e => if negb (error_eqb e io_EOF) then Log e else ret tt
      | None => Readdir_loop m dname d'
      end
  end.

(** [func (m *Matcher) Readdir(dname string)]. *)
Definition Readdir (m : Matcher) (fs : FS) (dname : string) : Eff unit :=
  match os_Open fs dname with
  | inr err => Log err
  | inl d => Readdir_loop m dname d
  end.

(** [func (m *Matcher) Match(files []string)]. *)
Definition Match (m : Matcher) (fs : FS) (files : list string) : Eff unit :=
  for_range files (fun file =>
    match os_Stat fs file with
    | inr err => Log err
    | inl fi =>
        if IsDir fi then Readdir m fs file
        else dostat m true "" file fi
    end).

(** The run of [main] once the matcher is configured:
    [if flag.NArg() > 0 { matcher.Match(flag.Args()) } else { matcher.Readdir(".") }]. *)
Definition main_run (m : Matcher) (fs : FS) (args : list string) : Eff unit :=
  if (0 <? List.length args)%nat then Match m fs args else Readdir m fs ".".

(** The command line, after [flag.Parse()]. *)
Record Flags : Type := mkFlags {
  flag_v : bool;        (* -v       invert matches *)
  flag_dot : bool;      (* -.       include dot files *)
  flag_noslash : bool;  (* -no/     do not print / after directory names *)
  flag_q : bool;        (* -q *)
  flag_print0 : bool;   (* -print0 *)
  flag_min : Z;
  flag_h : Z;
  flag_d : Z;
  flag_m : Z;
  flag_y : Z
}.

(** [func main()], up to the calls of the two callbacks: the process
    either dies of a fatal configuration error before any matching, or
    runs the configured matcher. *)
Definition main (now : time.Time) (fs : FS) (fl : Flags) (args : list string)
  : outcome (Eff unit) :=
  match main_Recent (flag_print0 fl) (flag_q fl)
                    (flag_y fl) (flag_m fl) (flag_d fl) (flag_h fl) (flag_min fl) with
  | Fatal msg => Fatal msg
  | Ok recent =>
      let matcher :=
        mkMatcher (flag_v fl) (flag_dot fl) (flag_noslash fl) recent now in
      Ok (main_run matcher fs args)
  end.

(* ================================================================== *)
(** ** Vocabulary of the properties *)

(** The age of an entry at the reference time. *)
Definition elapsed (m : Matcher) (fi : FileInfo) : time.Duration :=
  time.Sub (Now m) (ModTime fi).

(** The hit condition in the words of the specification. *)
Definition hit_condition (m : Matcher) (fi : FileInfo) : Prop :=
  if Invert m then elapsed m fi >= Recent m else elapsed m fi < Recent m.

Definition hit_conditionb (m : Matcher) (fi : FileInfo) : bool :=
  if Invert m then Recent m <=? elapsed m fi else elapsed m fi <? Recent m.

(** Does the name start with a dot? *)
Definition dotfile (name : string) : bool :=
  match name with
  | String c _ => Ascii.eqb c "."
  | EmptyString => false
  end.

(** A name as a directory holds it: not empty, and without separator. *)
Fixpoint no_separator (name : string) : bool :=
  match name with
  | EmptyString => true
  | String c rest => negb (filepath.IsPathSeparator c) && no_separator rest
  end.

Definition entry_name (name : string) : bool :=
  negb (String.eqb name "") && no_separator name.

(** The name shown for a hit. *)
Definition display_name (m : Matcher) (prefix name : string) (fi : FileInfo) : string :=
  (filepath.Clean (filepath.Join [prefix; name])
   ++ (if IsDir fi && negb (NoSlash m) then "/" else ""))%string.

(** The entries that the loop of [Readdir] receives from the open
    directory [d]: those of every result up to and including the first
    one that comes with an error. *)
Fixpoint entries_read (d : File) : list FileInfo :=
  match d with
  | [] => []
  | (fis, None) :: d' => fis ++ entries_read d'
  | (fis, Some _) :: _ => fis
  end.

(** The error that ends the loop of [Readdir]. *)
Fixpoint end_of_scan (d : File) : error :=
  match d with
  | [] => io_EOF
  | (_, None) :: d' => end_of_scan d'
  | (_, Some e) :: _ => e
  end.

(** Is the name withheld from classification by the dot check? *)
Definition dot_filtered (m : Matcher) (skipdotcheck : bool) (name : string) : bool :=
  negb skipdotcheck && negb (IncludeDots m) && dotfile (filepath.Base name).

(** The calls that one entry gives rise to. *)
Definition entry_events (m : Matcher) (skipdotcheck : bool) (prefix name : string)
           (fi : FileInfo) : list event :=
  if dot_filtered m skipdotcheck name then []
  else if hit_conditionb m fi then [EOut (display_name m prefix name fi)]
  else [].

(** The call that the end of a scan gives rise to: none for [io.EOF]. *)
Definition end_of_scan_events (d : File) : list event :=
  if error_eqb (end_of_scan d) io_EOF then [] else [ELog (end_of_scan d)].

(** The calls of [Readdir] on the directory [dname]. *)
Definition Readdir_events (m : Matcher) (fs : FS) (dname : string) : list event :=
  match os_Open fs dname with
  | inr err => [ELog err]
  | inl d =>
      flat_map (fun fi => entry_events m false dname (Name fi) fi) (entries_read d)
        ++ end_of_scan_events d
  end.

(** The calls that one argument of [Match] gives rise to. *)
Definition path_events (m : Matcher) (fs : FS) (file : string) : list event :=
  match os_Stat fs file with
  | inr err => [ELog err]
  | inl fi =>
      if IsDir fi then Readdir_events m fs file
      else entry_events m true "" file fi
  end.

(** A computation that calls [m.Out] at least once. *)
Definition emits (c : Eff unit) : Prop := outputs (trace c) <> [].

(** The matcher [m] with other policy flags. *)
Definition with_Invert (b : bool) (m : Matcher) : Matcher :=
  mkMatcher b (IncludeDots m) (NoSlash m) (Recent m) (Now m).

Definition with_IncludeDots (b : bool) (m : Matcher) : Matcher :=
  mkMatcher (Invert m) b (NoSlash m) (Recent m) (Now m).

(** The file system [fs] where [os.Stat] answers [r] for [path]. *)
Definition with_Stat (path : string) (r : FileInfo + error) (fs : FS) : FS :=
  mkFS (fun p => if String.eqb p path then r else os_Stat fs p) (os_Open fs).

(* ================================================================== *)
(** ** The example directory of the manual *)

Module Scenario.

Definition T : time.Time := 1700000000 * time.Second.

Definition ago (d : time.Duration) : time.Time := T - d.

Definition dot_a : FileInfo := mkFileInfo ".a" (ago (14 * time.Hour)) false.
Definition b : FileInfo := mkFileInfo "b" (ago (15 * day)) false.
Definition c : FileInfo := mkFileInfo "c" (ago (5 * time.Second)) true.
Definition d : FileInfo := mkFileInfo "d" (ago (2 * time.Hour)) false.
Definition e : FileInfo := mkFileInfo "e" (ago (400 * day)) false.
Definition dot_f : FileInfo := mkFileInfo ".f" (ago (4 * day)) false.

(** Two more directories: [locked] cannot be opened, and reading [worn]
    fails in the second batch. *)
Definition locked : FileInfo := mkFileInfo "locked" (ago time.Hour) true.
Definition worn : FileInfo := mkFileInfo "worn" (ago time.Hour) true.
Definition w1 : FileInfo := mkFileInfo "w1" (ago time.Minute) false.
Definition w2 : FileInfo := mkFileInfo "w2" (ago time.Minute) false.
Definition w3 : FileInfo := mkFileInfo "w3" (ago time.Minute) false.

Definition ENOENT : error := Err "no such file or directory".
Definition EACCES : error := Err "permission denied".
Definition EIO : error := Err "input/output error".

Definition fs : FS :=
  mkFS
    (fun path =>
       if String.eqb path ".a" then inl dot_a
       else if String.eqb path "b" then inl b
       else if String.eqb path "c" then inl c
       else if String.eqb path "locked" then inl locked
       else if String.eqb path "worn" then inl worn
       else inr ENOENT)
    (fun path =>
       if String.eqb path "." then inl [([dot_a; b; c], None); ([], Some io_EOF)]
       else if String.eqb path "c" then inl [([d; e; dot_f], None); ([], Some io_EOF)]
       else if String.eqb path "worn"
            then inl [([w1], None); ([w2], Some EIO); ([w3], None)]
       else if String.eqb path "locked" then inr EACCES
       else inr ENOENT).

Definition no_flags : Flags :=
  mkFlags false false false false false 0 0 0 0 0.

(** The matcher of a run without flags: a threshold of one day. *)
Definition m0 : Matcher := mkMatcher false false false day T.

End Scenario.

(* ================================================================== *)
(** ** The flag listing of [flag.Usage] *)

(** [type usage struct { name, value string; first bool }]. *)
Record usage : Type := mkUsage {
  u_name : string;
  u_value : string;
  u_first : bool
}.

(** [type usages []usage]. *)
Definition usages : Type := list usage.

(** [u[i]]: an index out of range panics ([None]). *)
Definition at_index (u : usages) (i : Z) : option usage :=
  if i <? 0 then None else nth_error u (Z.to_nat i).

(** [u[i] = x], for an index in range. *)
Fixpoint store (u : usages) (i : nat) (x : usage) : usages :=
  match u, i with
  | [], _ => []
  | _ :: t, O => x :: t
  | h :: t, S i' => h :: store t i' x
  end.

(** [func (u usages) Len() int]. *)
Definition Len (u : usages) : Z := Z.of_nat (List.length u).

(** [func (u usages) Swap(i, j int)]: [u[j], u[i] = u[i], u[j]].  The two
    elements are read, then [u[j]] and [u[i]] are written, in this
    order. *)
Definition Swap (u : usages) (i j : Z) : option usages :=
  match at_index u i, at_index u j with
  | Some ui, Some uj => Some (store (store u (Z.to_nat j) ui) (Z.to_nat i) uj)
  | _, _ => None
  end.

(** The body of [Less] on the two elements. *)
Definition usage_less (a b : usage) : bool :=
  if negb (Bool.eqb (u_first a) (u_first b)) then u_first a
  else String.ltb (u_name a) (u_name b).

(** [func (u usages) Less(i, j int) bool]. *)
Definition Less (u : usages) (i j : Z) : option bool :=
  match at_index u i, at_index u j with
  | Some ui, Some uj => Some (usage_less ui uj)
  | _, _ => None
  end.

(** [for len(s) < 10 { s += " " }], with a bound on the number of turns. *)
Fixpoint pad_loop (turns : nat) (s : string) : string :=
  match turns with
  | O => s
  | S turns' =>
      if (String.length s <? 10)%nat then pad_loop turns' (s ++ " ")%string else s
  end.

(** A run of [n] spaces. *)
Fixpoint spaces (n : nat) : string :=
  match n with
  | O => ""
  | S n' => String " " (spaces n')
  end.

(** The function passed to [flag.VisitAll] in [flag.Usage], for the flag
    named [fName]: [name] and [usageString] are the two results of
    [flag.UnquoteUsage(f)], and [bf] tells whether the flag is boolean.
    The result is the element appended to [us]. *)
Definition usage_of_flag (fName name usageString : string) (bf : bool) : usage :=
  let s := ("  -" ++ fName)%string in
  let s := if (0 <? String.length name)%nat then (s ++ (" " ++ name))%string else s in
  let s := if bf then (pad_loop 10 s ++ usageString)%string else s in
  mkUsage fName s (negb bf).

(** A listing in the order that [sort.Sort] establishes: no element is
    [Less] than an earlier one. *)
Fixpoint in_order (u : usages) : Prop :=
  match u with
  | [] => True
  | a :: rest => (forall b, In b rest -> usage_less b a = false) /\ in_order rest
  end.

(* ================================================================== *)
(** ** The process: standard output, standard error, exit status *)

(** What the two callbacks of [main] write to. *)
Record Sinks : Type := mkSinks {
  matched : bool;            (* the variable [matched] of [main] *)
  stdout : string;
  stderr : list error        (* one line per error, by log.Println *)
}.

Definition newline : string := String "010" "".
Definition nul : string := String "000" "".

(** [matcher.Out], as [main] sets it from [-q] and [-print0]. *)
Definition main_Out (noPrint print0 : bool) (name : string) (st : Sinks) : Sinks :=
  if noPrint then mkSinks true (stdout st) (stderr st)
  else if print0 then mkSinks (matched st) (stdout st ++ (name ++ nul)) (stderr st)
  else mkSinks (matched st) (stdout st ++ (name ++ newline)) (stderr st).

(** [matcher.Log]. *)
Definition main_Log (err : error) (st : Sinks) : Sinks :=
  mkSinks (matched st) (stdout st) (stderr st ++ [err]).

(** The calls of a trace, made one after the other. *)
Fixpoint replay (noPrint print0 : bool) (t : list event) (st : Sinks) : Sinks :=
  match t with
  | [] => st
  | EOut name :: t' => replay noPrint print0 t' (main_Out noPrint print0 name st)
  | ELog err :: t' => replay noPrint print0 t' (main_Log err st)
  end.

(** How the process ends. *)
Inductive ending : Type :=
| Exit (status : Z)          (* os.Exit, or the return of main: status 0 *)
| FatalExit (msg : string)   (* log.Fatal: the message on standard error, status 1 *)
| Panicked.

(** [func main()] from the return of [flag.Parse()] on: what was
    written, and how the process ended. *)
Definition main_process (now : time.Time) (fs : FS) (fl : Flags) (args : list string)
  : Sinks * ending :=
  let start := mkSinks false "" [] in
  match main now fs fl args with
  | Fatal msg => (start, FatalExit msg)
  | Ok (t, r) =>
      let st := replay (flag_q fl) (flag_print0 fl) t start in
      match r with
      | None => (st, Panicked)
      | Some _ =>
          (* if *noPrint && !matched { os.Exit(1) } *)
          if flag_q fl && negb (matched st) then (st, Exit 1) else (st, Exit 0)
      end
  end.

(** The records of a stream in which every record is followed by the
    byte [sep], as a reader such as xargs cuts it. *)
Fixpoint records (sep : ascii) (current : string) (s : string) : list string :=
  match s with
  | EmptyString => []
  | String c rest =>
      if Ascii.eqb c sep then current :: records sep "" rest
      else records sep (current ++ String c "") rest
  end.

(** Does the byte occur in the string? *)
Fixpoint occurs (c : ascii) (s : string) : bool :=
  match s with
  | EmptyString => false
  | String c' rest => Ascii.eqb c' c || occurs c rest
  end.

(** The names of a trace, each followed by [terminator]. *)
Fixpoint terminated (terminator : string) (names : list string) : string :=
  match names with
  | [] => ""
  | n :: names' => (n ++ terminator ++ terminated terminator names')%string
  end.

(** The matcher [m] with another threshold. *)
Definition with_Recent (r : time.Duration) (m : Matcher) : Matcher :=
  mkMatcher (Invert m) (IncludeDots m) (NoSlash m) r (Now m).

(** A path element that [filepath.Clean] keeps as it is: a directory
    entry name other than [.] and [..]. *)
Definition plain_name (name : string) : bool :=
  entry_name name && negb (String.eqb name ".") && negb (String.eqb name "..").

(** The same on the bytes of a path element: not empty, without
    separator, and neither [.] nor [..]. *)
Definition plain (e : list ascii) : Prop :=
  e <> [] /\ forallb (fun c => negb (filepath.IsPathSeparator c)) e = true
  /\ e <> ["."%char] /\ e <> ["."%char; "."%char].

(** What follows a path element: the end of the path, or a separator. *)
Definition element_end (rest : list ascii) : Prop :=
  rest = [] \/ exists more, rest = filepath.Separator :: more.

(* ================================================================== *)
(** ** Arithmetic of the machine integers *)

Module GoIntFacts.

Import GoInt.

Lemma wrap_int64_small (z : Z) : is_int64 z -> wrap_int64 z = z.
Proof.
  unfold is_int64, minInt64, maxInt64, wrap_int64. intros Hz.
  rewrite Z.mod_small; lia.
Qed.

Lemma wrap_int64_range (z : Z) : is_int64 (wrap_int64 z).
Proof.
  unfold is_int64, minInt64, maxInt64, wrap_int64.
  pose proof (Z.mod_pos_bound (z + 2 ^ 63) (2 ^ 64) ltac:(lia)). lia.
Qed.

Lemma wrap_int64_mod (z : Z) : wrap_int64 z mod 2 ^ 64 = z mod 2 ^ 64.
Proof.
  unfold wrap_int64. rewrite Zminus_mod_idemp_l. f_equal. lia.
Qed.

Lemma wrap_int64_congr (a b : Z) :
  a mod 2 ^ 64 = b mod 2 ^ 64 -> wrap_int64 a = wrap_int64 b.
Proof.
  intros H. unfold wrap_int64.
  rewrite (Zplus_mod a), (Zplus_mod b), H. reflexivity.
Qed.

#[export] Instance eqm64_Equivalence : Equivalence eqm64.
Proof.
  unfold eqm64. split.
  - intros a. reflexivity.
  - intros a b H. symmetry. exact H.
  - intros a b c H1 H2. rewrite H1. exact H2.
Qed.

#[export] Instance add_eqm64 : Proper (eqm64 ==> eqm64 ==> eqm64) Z.add.
Proof.
  unfold eqm64. intros a a' Ha b b' Hb.
  rewrite (Zplus_mod a), (Zplus_mod a'), Ha, Hb. reflexivity.
Qed.

#[export] Instance mul_eqm64 : Proper (eqm64 ==> eqm64 ==> eqm64) Z.mul.
Proof.
  unfold eqm64. intros a a' Ha b b' Hb.
  rewrite (Zmult_mod a), (Zmult_mod a'), Ha, Hb. reflexivity.
Qed.

Lemma wrap_int64_eqm64 (z : Z) : eqm64 (wrap_int64 z) z.
Proof. exact (wrap_int64_mod z). Qed.

Lemma wrap_uint_small (z : Z) : is_uint z -> wrap_uint z = z.
Proof.
  unfold is_uint, wrap_uint. intros Hz. apply Z.mod_small. exact Hz.
Qed.

End GoIntFacts.

(* ================================================================== *)
(** ** The duration accumulator: properties *)

Section AccumulatorFacts.

Import GoInt GoIntFacts.

(** Whatever the counts, the duration is the exact total reduced to 64
    bits. *)
Lemma toDuration_wraps (years months days hours mins : Z) :
  toDuration years months days hours mins
  = wrap_int64 (exact_total years months days hours mins).
Proof.
  unfold toDuration, time.add, time.mul, time.of_uint.
  apply wrap_int64_congr.
  match goal with |- ?a mod _ = ?b mod _ => change (eqm64 a b) end.
  rewrite !wrap_int64_eqm64.
  unfold exact_total, eqm64. f_equal. ring.
Qed.

Lemma exact_total_nonneg (years months days hours mins : Z) :
  0 <= years -> 0 <= months -> 0 <= days -> 0 <= hours -> 0 <= mins ->
  0 <= exact_total years months days hours mins.
Proof.
  intros. unfold exact_total, year, month, day, time.Hour, time.Minute,
    time.Second, time.Millisecond, time.Microsecond, time.Nanosecond.
  lia.
Qed.

(** The guard follows the year-equivalent sum as long as that sum fits
    in a [uint]. *)
Lemma overflowCheck_below_modulus (years months days hours minutes : Z) :
  is_uint years -> is_uint months -> is_uint days -> is_uint hours ->
  is_uint minutes ->
  year_equivalent years months days hours minutes < uint_modulus ->
  (overflowCheck years months days hours minutes = Ok tt
   <-> year_equivalent years months days hours minutes <= 290).
Proof.
  unfold is_uint, year_equivalent. intros Hy HM Hd Hh Hm Hsum.
  assert (HqM : 0 <= months / 12 <= months)
    by (split; [apply Z.div_pos | apply Z.div_le_upper_bound]; lia).
  assert (Hqd : 0 <= days / 365 <= days)
    by (split; [apply Z.div_pos | apply Z.div_le_upper_bound]; lia).
  assert (Hqh : 0 <= hours / (24 * 365) <= hours)
    by (split; [apply Z.div_pos | apply Z.div_le_upper_bound]; lia).
  assert (Hqm : 0 <= minutes / (60 * 24 * 365) <= minutes)
    by (split; [apply Z.div_pos | apply Z.div_le_upper_bound]; lia).
  unfold overflowCheck, uadd, udiv.
  rewrite (wrap_uint_small (months / 12)),
    (wrap_uint_small (days / 365)),
    (wrap_uint_small (hours / (24 * 365))),
    (wrap_uint_small (minutes / (60 * 24 * 365))),
    (wrap_uint_small (years + months / 12)),
    (wrap_uint_small (years + months / 12 + days / 365)),
    (wrap_uint_small (years + months / 12 + days / 365 + hours / (24 * 365))),
    (wrap_uint_small (years + months / 12 + days / 365 + hours / (24 * 365)
                      + minutes / (60 * 24 * 365)))
    by (unfold is_uint; lia).
  destruct (Z.ltb_spec 290
    (years + months / 12 + days / 365 + hours / (24 * 365)
     + minutes / (60 * 24 * 365))) as [Hlt | Hle].
  - split; [discriminate | lia].
  - split; [lia | reflexivity].
Qed.

(** What an accepted year-equivalent sum bounds: the remainders of the
    four divisions add up to almost four more years. *)
Lemma year_equivalent_bounds_total (years months days hours minutes : Z) :
  0 <= years -> 0 <= months -> 0 <= days -> 0 <= hours -> 0 <= minutes ->
  year_equivalent years months days hours minutes <= 290 ->
  exact_total years months days hours minutes < 294 * year.
Proof.
  unfold year_equivalent, exact_total, year, month, day, time.Hour,
    time.Minute, time.Second, time.Millisecond, time.Microsecond,
    time.Nanosecond.
  intros Hy HM Hd Hh Hm Hsum.
  pose proof (Z.div_mod months 12 ltac:(lia)).
  pose proof (Z.mod_pos_bound months 12 ltac:(lia)).
  pose proof (Z.div_mod days 365 ltac:(lia)).
  pose proof (Z.mod_pos_bound days 365 ltac:(lia)).
  pose proof (Z.div_mod hours (24 * 365) ltac:(lia)).
  pose proof (Z.mod_pos_bound hours (24 * 365) ltac:(lia)).
  pose proof (Z.div_mod minutes (60 * 24 * 365) ltac:(lia)).
  pose proof (Z.mod_pos_bound minutes (60 * 24 * 365) ltac:(lia)).
  lia.
Qed.

Lemma allZero_spec (xs : list Z) :
  allZero xs = true <-> Forall (fun x => x = 0) xs.
Proof.
  induction xs as [| x xs IH]; simpl.
  - split; auto.
  - destruct (Z.eqb_spec x 0) as [-> | Hx]; simpl.
    + rewrite IH. split; intros H; [constructor; auto | inversion H; auto].
    + split; [discriminate | intros H; inversion H; contradiction].
Qed.

End AccumulatorFacts.

(* ================================================================== *)
(** ** Effects: laws *)

Section EffFacts.

Lemma bind_ret_l {A B : Type} (a : A) (k : A -> Eff B) : bind (ret a) k = k a.
Proof. unfold bind, ret. destruct (k a). reflexivity. Qed.

(** A computation that does not panic, followed by another. *)
Lemma bind_done {A B : Type} (t : list event) (a : A) (k : A -> Eff B) :
  bind (t, Some a) k = (t ++ trace (k a), snd (k a)).
Proof. unfold bind, trace. destruct (k a). reflexivity. Qed.

Lemma for_range_events {A : Type} (ev : A -> list event) (body : A -> Eff unit)
      (xs : list A) :
  (forall x, body x = (ev x, Some tt)) ->
  for_range xs body = (flat_map ev xs, Some tt).
Proof.
  intros Hbody. induction xs as [| x xs IH]; simpl.
  - reflexivity.
  - rewrite Hbody, bind_done, IH. reflexivity.
Qed.

Lemma outputs_app (t1 t2 : list event) :
  outputs (t1 ++ t2) = (outputs t1 ++ outputs t2)%list.
Proof.
  induction t1 as [| [n | e] t1 IH]; simpl; rewrite ?IH; reflexivity.
Qed.

Lemma logged_app (t1 t2 : list event) :
  logged (t1 ++ t2) = (logged t1 ++ logged t2)%list.
Proof.
  induction t1 as [| [n | e] t1 IH]; simpl; rewrite ?IH; reflexivity.
Qed.

Lemma append_empty_r (s : string) : (s ++ "")%string = s.
Proof.
  induction s as [| c s IH]; simpl; [reflexivity | rewrite IH; reflexivity].
Qed.

Lemma error_eqb_eq (e1 e2 : error) : error_eqb e1 e2 = true <-> e1 = e2.
Proof.
  destruct e1 as [| m1], e2 as [| m2]; simpl;
    try (split; [reflexivity | reflexivity]);
    try (split; discriminate).
  rewrite String.eqb_eq. split; [intros -> | intros [= ->]]; reflexivity.
Qed.

End EffFacts.

(* ================================================================== *)
(** ** package path/filepath: properties *)

Section FilepathFacts.

Import filepath.

Lemma Base_not_empty (path : string) : Base path <> ""%string.
Proof.
  unfold Base. destruct (path =? "")%string; [discriminate |].
  match goal with
  | |- (if (?s =? "")%string then _ else _) <> _ =>
      destruct (String.eqb_spec s "") as [_ | Hs]; [discriminate | exact Hs]
  end.
Qed.

Lemma Base_empty : Base "" = "."%string.
Proof. reflexivity. Qed.

(** The first byte of a base name exists: the index expression
    [filepath.Base(name)[0]] does not panic. *)
Lemma index_Base (path : string) :
  exists c, index (Base path) 0 = ret c
            /\ dotfile (Base path) = Ascii.eqb c ".".
Proof.
  pose proof (Base_not_empty path) as Hne.
  destruct (Base path) as [| c rest]; [contradiction |].
  exists c. split; reflexivity.
Qed.

Lemma drop_while_head (p : ascii -> bool) (c : ascii) (l : list ascii) :
  p c = false -> drop_while p (c :: l) = c :: l.
Proof. intros H. simpl. rewrite H. reflexivity. Qed.

Lemma take_while_all (p : ascii -> bool) (l : list ascii) :
  forallb p l = true -> take_while p l = l.
Proof.
  induction l as [| c l IH]; simpl; [reflexivity |].
  intros H. apply andb_prop in H. destruct H as [Hc Hl].
  rewrite Hc, IH by exact Hl. reflexivity.
Qed.

Lemma no_separator_forallb (name : string) :
  no_separator name = true ->
  forallb (fun c => negb (IsPathSeparator c)) (list_ascii_of_string name) = true.
Proof.
  induction name as [| c rest IH]; simpl; [reflexivity |].
  intros H. apply andb_prop in H. destruct H as [Hc Hrest].
  rewrite Hc, IH by exact Hrest. reflexivity.
Qed.

Lemma forallb_rev {A : Type} (p : A -> bool) (l : list A) :
  forallb p (rev l) = forallb p l.
Proof.
  induction l as [| a l IH]; simpl; [reflexivity |].
  rewrite forallb_app, IH. simpl. rewrite andb_true_r. apply andb_comm.
Qed.

(** The base name of a directory entry is the entry's name. *)
Lemma Base_entry_name (name : string) :
  entry_name name = true -> Base name = name.
Proof.
  unfold entry_name. intros H. apply andb_prop in H. destruct H as [Hne Hsep].
  apply negb_true_iff in Hne.
  unfold Base. rewrite Hne.
  pose proof (no_separator_forallb name Hsep) as Hall.
  rewrite <- forallb_rev in Hall.
  assert (Hdrop : drop_while IsPathSeparator (rev (list_ascii_of_string name))
                  = rev (list_ascii_of_string name)).
  { destruct (rev (list_ascii_of_string name)) as [| c l]; [reflexivity |].
    simpl in Hall. apply andb_prop in Hall. destruct Hall as [Hc _].
    apply drop_while_head. apply negb_true_iff. exact Hc. }
  rewrite Hdrop, (take_while_all _ _ Hall), rev_involutive,
    string_of_list_ascii_of_string, Hne.
  reflexivity.
Qed.

End FilepathFacts.

(* ================================================================== *)
(** ** The matcher: what each method calls *)

Section MatcherFacts.

Variable m : Matcher.

Lemma hit_conditionb_spec (fi : FileInfo) :
  hit_conditionb m fi = true <-> hit_condition m fi.
Proof.
  unfold hit_conditionb, hit_condition. destruct (Invert m).
  - rewrite Z.leb_le. lia.
  - apply Z.ltb_lt.
Qed.

(** The two assignments to [hit] in [dostat]. *)
Lemma hit_variable (fi : FileInfo) :
  (let hit := time.Sub (Now m) (ModTime fi) <? Recent m in
   if Invert m then negb hit else hit) = hit_conditionb m fi.
Proof.
  unfold hit_conditionb, elapsed. cbv zeta.
  destruct (Invert m); [| reflexivity].
  rewrite Z.leb_antisym. reflexivity.
Qed.

Lemma display_name_eq (prefix name : string) (fi : FileInfo) :
  (let name := filepath.Clean (filepath.Join [prefix; name]) in
   if IsDir fi && negb (NoSlash m) then (name ++ "/")%string else name)
  = display_name m prefix name fi.
Proof.
  unfold display_name. cbv zeta.
  destruct (IsDir fi && negb (NoSlash m)); [reflexivity |].
  symmetry. apply append_empty_r.
Qed.

(** [dostat] never panics, and calls [m.Out] at most once. *)
Lemma dostat_events (skipdotcheck : bool) (prefix name : string) (fi : FileInfo) :
  dostat m skipdotcheck prefix name fi
  = (entry_events m skipdotcheck prefix name fi, Some tt).
Proof.
  unfold dostat, entry_events, dot_filtered.
  pose proof (hit_variable fi) as Hhit. cbv zeta in Hhit |- *.
  rewrite Hhit. clear Hhit.
  pose proof (display_name_eq prefix name fi) as Hname. cbv zeta in Hname.
  rewrite Hname. clear Hname.
  destruct (index_Base name) as (c & Hidx & Hdot).
  destruct (negb skipdotcheck && negb (IncludeDots m)); simpl andb.
  - rewrite Hidx, !bind_ret_l, Hdot.
    destruct (Ascii.eqb c "."); [reflexivity |].
    destruct (hit_conditionb m fi); reflexivity.
  - rewrite bind_ret_l.
    destruct (hit_conditionb m fi); reflexivity.
Qed.

(** One turn of the loop of [Readdir]: a call of [d.Readdir(100)], the
    entries it returned, then the error it returned. *)
Lemma Readdir_loop_step (dname : string) (d : File) :
  Readdir_loop m dname d
  = (let '((fis, err), d') := File_Readdir d in
     for_range fis (fun fi => dostat m false dname (Name fi) fi) ;;;
     match err with
     | Some e => if negb (error_eqb e io_EOF) then Log e else ret tt
     | None => Readdir_loop m dname d'
     end).
Proof.
  destruct d as [| [fis err] d']; reflexivity.
Qed.

Lemma Readdir_loop_events (dname : string) (d : File) :
  Readdir_loop m dname d
  = (flat_map (fun fi => entry_events m false dname (Name fi) fi) (entries_read d)
       ++ end_of_scan_events d,
     Some tt).
Proof.
  induction d as [| [fis err] d IH]; [reflexivity |].
  cbn [Readdir_loop entries_read].
  rewrite (for_range_events
             (fun fi => entry_events m false dname (Name fi) fi))
    by (intros fi; apply dostat_events).
  rewrite bind_done.
  destruct err as [e |].
  - unfold end_of_scan_events. cbn [end_of_scan].
    destruct (error_eqb e io_EOF); reflexivity.
  - rewrite IH. unfold trace. cbn [fst snd].
    rewrite flat_map_app, <- app_assoc. reflexivity.
Qed.

Variable fs : FS.

Lemma Readdir_done (dname : string) :
  Readdir m fs dname = (Readdir_events m fs dname, Some tt).
Proof.
  unfold Readdir, Readdir_events.
  destruct (os_Open fs dname) as [d | err]; [apply Readdir_loop_events | reflexivity].
Qed.

Lemma Match_events (files : list string) :
  Match m fs files = (flat_map (path_events m fs) files, Some tt).
Proof.
  unfold Match. apply for_range_events. intros file. unfold path_events.
  destruct (os_Stat fs file) as [fi | err]; [| reflexivity].
  destruct (IsDir fi); [apply Readdir_done | apply dostat_events].
Qed.

Lemma outputs_entries (skipdotcheck : bool) (prefix : string) (fis : list FileInfo) :
  outputs (flat_map (fun fi => entry_events m skipdotcheck prefix (Name fi) fi) fis)
  = map (fun fi => display_name m prefix (Name fi) fi)
        (filter (fun fi => negb (dot_filtered m skipdotcheck (Name fi))
                           && hit_conditionb m fi) fis).
Proof.
  induction fis as [| fi fis IH]; [reflexivity |].
  cbn [flat_map filter]. rewrite outputs_app, IH. unfold entry_events.
  destruct (dot_filtered m skipdotcheck (Name fi)); [reflexivity |].
  destruct (hit_conditionb m fi); reflexivity.
Qed.

Lemma outputs_end_of_scan (d : File) : outputs (end_of_scan_events d) = [].
Proof.
  unfold end_of_scan_events. destruct (error_eqb (end_of_scan d) io_EOF); reflexivity.
Qed.

End MatcherFacts.

(* ================================================================== *)
(** ** The duration accumulator: the guard and the threshold *)

(** C1.  The guard does not keep the assembled duration within what a
    signed 64-bit count of nanoseconds stores: 290 years, 11 months, 364
    days and 8759 hours have a year-equivalent sum of exactly 290, so
    [overflowCheck] accepts them, while their total is more than the
    largest duration; [toDuration] wraps to a negative threshold, which
    [main] hands to the matcher. *)
Theorem overflowCheck_accepts_unrepresentable_total :
  overflowCheck 290 11 364 8759 0 = Ok tt /\
  year_equivalent 290 11 364 8759 0 = 290 /\
  time.maxDuration < exact_total 290 11 364 8759 0 /\
  toDuration 290 11 364 8759 0 = -9209810073709551616 /\
  main_Recent false false 290 11 364 8759 0 = Ok (-9209810073709551616).
Proof.
  repeat split; vm_compute; reflexivity.
Qed.

(** C2.  The guard adds the year-equivalents in [uint], so the sum it
    compares with 290 is reduced modulo [2^64]: for the largest [uint] as
    the year count and 12 months the year-equivalent sum is [2^64], far
    above 290, and [overflowCheck] accepts it because the machine sum is
    0. *)
Theorem overflowCheck_sum_wraps_around :
  GoInt.is_uint GoInt.maxUint /\
  GoInt.maxUint = 18446744073709551615 /\
  290 < year_equivalent GoInt.maxUint 12 0 0 0 /\
  GoInt.uadd GoInt.maxUint (GoInt.udiv 12 12) = 0 /\
  overflowCheck GoInt.maxUint 12 0 0 0 = Ok tt.
Proof.
  unfold GoInt.is_uint. repeat split; vm_compute; try reflexivity; discriminate.
Qed.

(** C5.  The duration that [main] obtains from [toDuration] is not always
    the sum of the counts multiplied by their conversion factors: 290
    years, 11 months, 364 days and 8759 hours pass [overflowCheck], so
    [main] calls [toDuration] on them, and the sum, 9236934000000000000
    nanoseconds, is more than a duration stores; [toDuration] returns
    -9209810073709551616 nanoseconds instead. *)
Theorem toDuration_of_accepted_counts_is_not_the_sum :
  overflowCheck 290 11 364 8759 0 = Ok tt
  /\ main_Recent false false 290 11 364 8759 0
     = Ok (toDuration 290 11 364 8759 0)
  /\ 0 * (60 * time.Second) + 8759 * (3600 * time.Second)
     + 364 * (86400 * time.Second) + 11 * (30 * (86400 * time.Second))
     + 290 * (365 * (86400 * time.Second))
     = 9236934000000000000
  /\ toDuration 290 11 364 8759 0 = -9209810073709551616
  /\ toDuration 290 11 364 8759 0
     <> 0 * (60 * time.Second) + 8759 * (3600 * time.Second)
        + 364 * (86400 * time.Second) + 11 * (30 * (86400 * time.Second))
        + 290 * (365 * (86400 * time.Second)).
Proof.
  repeat split; vm_compute; try reflexivity. discriminate.
Qed.

(** X23.  For non-negative counts whose exact total is at most the
    largest duration ([2^63 - 1] nanoseconds), the duration of
    [toDuration] is the sum of each count multiplied by its conversion
    factor: minute = 60 s, hour = 3600 s, day = 86400 s, month = 30 days,
    year = 365 days. *)
Theorem toDuration_is_the_sum (years months days hours mins : Z) :
  0 <= years -> 0 <= months -> 0 <= days -> 0 <= hours -> 0 <= mins ->
  exact_total years months days hours mins <= time.maxDuration ->
  toDuration years months days hours mins
  = mins * (60 * time.Second) + hours * (3600 * time.Second)
    + days * (86400 * time.Second) + months * (30 * (86400 * time.Second))
    + years * (365 * (86400 * time.Second)).
Proof.
  intros Hy HM Hd Hh Hm Hfits.
  pose proof (exact_total_nonneg years months days hours mins Hy HM Hd Hh Hm) as H0.
  rewrite toDuration_wraps, GoIntFacts.wrap_int64_small.
  - unfold exact_total, year, month, day, time.Hour, time.Minute. lia.
  - unfold GoInt.is_int64, GoInt.minInt64.
    unfold time.maxDuration in Hfits. lia.
Qed.

Lemma toDuration_is_the_sum_witness :
  toDuration 1 1 3 5 0
  = 0 * (60 * time.Second) + 5 * (3600 * time.Second)
    + 3 * (86400 * time.Second) + 1 * (30 * (86400 * time.Second))
    + 1 * (365 * (86400 * time.Second)).
Proof.
  apply (toDuration_is_the_sum 1 1 3 5 0); try lia.
  vm_compute. discriminate.
Defined.

(** C6.  When the five counts are all zero (and -print0 is not combined
    with -q, which is fatal), [main] sets the day count to 1 before it
    calls [toDuration], and the matcher it runs has a threshold of exactly
    one day, 86400 seconds. *)
Theorem default_threshold_is_one_day
        (now : time.Time) (fs : FS) (fl : Flags) (args : list string) :
  allZero [flag_y fl; flag_m fl; flag_d fl; flag_h fl; flag_min fl] = true ->
  flag_print0 fl && flag_q fl = false ->
  main_Recent (flag_print0 fl) (flag_q fl)
              (flag_y fl) (flag_m fl) (flag_d fl) (flag_h fl) (flag_min fl)
  = Ok (toDuration 0 0 1 0 0)
  /\ toDuration 0 0 1 0 0 = 86400 * time.Second
  /\ main now fs fl args
     = Ok (main_run (mkMatcher (flag_v fl) (flag_dot fl) (flag_noslash fl)
                               (86400 * time.Second) now) fs args).
Proof.
  intros Hzero Hflags.
  pose proof Hzero as Hall. apply allZero_spec in Hall.
  inversion Hall as [| ? ? Hy H1]; subst. inversion H1 as [| ? ? HM H2]; subst.
  inversion H2 as [| ? ? Hd H3]; subst. inversion H3 as [| ? ? Hh H4]; subst.
  inversion H4 as [| ? ? Hm _]; subst.
  assert (Hrecent :
    main_Recent (flag_print0 fl) (flag_q fl)
                (flag_y fl) (flag_m fl) (flag_d fl) (flag_h fl) (flag_min fl)
    = Ok (toDuration 0 0 1 0 0)).
  { unfold main_Recent. rewrite Hzero, Hflags, Hy, HM, Hd, Hh, Hm. reflexivity. }
  split; [exact Hrecent |]. split; [reflexivity |].
  unfold main. rewrite Hrecent. reflexivity.
Qed.

Lemma default_threshold_is_one_day_witness :
  main Scenario.T Scenario.fs Scenario.no_flags []
  = Ok (main_run (mkMatcher false false false (86400 * time.Second) Scenario.T)
                 Scenario.fs []).
Proof.
  apply (default_threshold_is_one_day Scenario.T Scenario.fs Scenario.no_flags []);
    reflexivity.
Defined.

(* ================================================================== *)
(** ** The matcher: classification, dot files, names, errors *)

Lemma filter_flat_map {A B : Type} (p : A -> bool) (g : A -> list B) (l : list A) :
  flat_map (fun x => if p x then [] else g x) l
  = flat_map g (filter (fun x => negb (p x)) l).
Proof.
  induction l as [| x l IH]; [reflexivity |].
  cbn [flat_map filter]. rewrite IH. destruct (p x); reflexivity.
Qed.

Lemma append_inj_r (s a b : string) : (s ++ a)%string = (s ++ b)%string -> a = b.
Proof.
  induction s as [| c s IH]; simpl; [auto |].
  intros [= H]. auto.
Qed.

Lemma logged_entries (m : Matcher) (skipdotcheck : bool) (prefix : string)
      (fis : list FileInfo) :
  logged (flat_map (fun fi => entry_events m skipdotcheck prefix (Name fi) fi) fis) = [].
Proof.
  induction fis as [| fi fis IH]; [reflexivity |].
  cbn [flat_map]. rewrite logged_app, IH. unfold entry_events.
  destruct (dot_filtered m skipdotcheck (Name fi)); [reflexivity |].
  destruct (hit_conditionb m fi); reflexivity.
Qed.

(** C3.  With [elapsed = Now - ModTime], exactly one of [elapsed < Recent]
    and [elapsed >= Recent] holds.  An entry that reaches classification
    (an explicit non-directory argument of [Match], or a directory entry
    that the dot check lets through) is a hit, that is, is passed to
    [m.Out], if and only if [elapsed < Recent] when [Invert] is false and
    if and only if [elapsed >= Recent] when [Invert] is true; flipping
    [Invert] turns hits into misses and misses into hits; and the names
    that a directory scan emits are those of the entries that pass the dot
    check and satisfy the condition, in order. *)
Theorem hit_iff_elapsed_against_threshold (m : Matcher) (fi : FileInfo) :
  ((elapsed m fi < Recent m /\ ~ elapsed m fi >= Recent m)
   \/ (elapsed m fi >= Recent m /\ ~ elapsed m fi < Recent m))
  /\ (forall skipdotcheck prefix name,
         dot_filtered m skipdotcheck name = false ->
         (emits (dostat m skipdotcheck prefix name fi)
          <-> if Invert m then elapsed m fi >= Recent m
              else elapsed m fi < Recent m)
         /\ (emits (dostat (with_Invert (negb (Invert m)) m) skipdotcheck prefix name fi)
             <-> ~ emits (dostat m skipdotcheck prefix name fi)))
  /\ (forall fs file,
         os_Stat fs file = inl fi -> IsDir fi = false ->
         (emits (Match m fs [file])
          <-> if Invert m then elapsed m fi >= Recent m
              else elapsed m fi < Recent m))
  /\ (forall fs dname d,
         os_Open fs dname = inl d ->
         outputs (trace (Readdir m fs dname))
         = map (fun fi => display_name m dname (Name fi) fi)
               (filter (fun fi => negb (dot_filtered m false (Name fi))
                                  && (if Invert m then Recent m <=? elapsed m fi
                                      else elapsed m fi <? Recent m))
                       (entries_read d))).
Proof.
  assert (Hev : forall m' skipdotcheck prefix name,
             dot_filtered m' skipdotcheck name = false ->
             (outputs (entry_events m' skipdotcheck prefix name fi) <> []
              <-> hit_condition m' fi)).
  { intros m' skipdotcheck prefix name Hdot. unfold entry_events.
    rewrite Hdot, <- hit_conditionb_spec.
    destruct (hit_conditionb m' fi); simpl; split; congruence. }
  assert (Hemit : forall m' skipdotcheck prefix name,
             dot_filtered m' skipdotcheck name = false ->
             (emits (dostat m' skipdotcheck prefix name fi) <-> hit_condition m' fi)).
  { intros m' skipdotcheck prefix name Hdot.
    unfold emits. rewrite dostat_events. apply Hev. exact Hdot. }
  split; [lia |]. split; [| split].
  - intros skipdotcheck prefix name Hdot. split.
    + apply (Hemit m _ _ _ Hdot).
    + rewrite (Hemit m _ _ _ Hdot), (Hemit (with_Invert (negb (Invert m)) m)) by exact Hdot.
      unfold hit_condition, with_Invert, elapsed. cbn [Invert Recent Now].
      destruct (Invert m); simpl; lia.
  - intros fs file Hstat Hdir.
    unfold emits. rewrite Match_events. unfold trace, path_events. cbn [fst flat_map].
    rewrite Hstat, Hdir, app_nil_r.
    apply (Hev m true ""%string file). reflexivity.
  - intros fs dname d Hopen.
    rewrite Readdir_done. unfold trace, Readdir_events. cbn [fst].
    rewrite Hopen, outputs_app, outputs_end_of_scan, app_nil_r.
    apply outputs_entries.
Qed.

Lemma hit_iff_elapsed_against_threshold_witness :
  (emits (dostat Scenario.m0 false "." "c" Scenario.c)
   <-> elapsed Scenario.m0 Scenario.c < Recent Scenario.m0)
  /\ (emits (Match Scenario.m0 Scenario.fs ["b"%string])
      <-> elapsed Scenario.m0 Scenario.b < Recent Scenario.m0)
  /\ outputs (trace (Readdir Scenario.m0 Scenario.fs "c")) = ["c/d"%string].
Proof.
  destruct (hit_iff_elapsed_against_threshold Scenario.m0 Scenario.c)
    as (_ & Hdostat & _ & Hscan).
  destruct (hit_iff_elapsed_against_threshold Scenario.m0 Scenario.b)
    as (_ & _ & Hmatch & _).
  split; [| split].
  - apply (Hdostat false "."%string "c"%string). reflexivity.
  - apply (Hmatch Scenario.fs "b"%string); reflexivity.
  - rewrite (Hscan Scenario.fs "c"%string
                   [([Scenario.d; Scenario.e; Scenario.dot_f], None);
                    ([], Some io_EOF)]) by reflexivity.
    reflexivity.
Defined.

(** C4.  The dot check applies to the entries that [Readdir] enumerates
    and to nothing else.  An explicit non-directory argument of [Match]
    is classified whatever its first character and whatever [IncludeDots];
    an explicit directory argument is scanned whatever its own name; and
    in a scan, the entries whose name starts with a dot are skipped when
    [IncludeDots] is false, the other entries being classified as if no
    dot check existed. *)
Theorem dot_check_only_on_enumerated_entries (m : Matcher) (fs : FS) :
  (forall file fi,
      os_Stat fs file = inl fi -> IsDir fi = false ->
      Match m fs [file]
      = ((if hit_conditionb m fi then [EOut (display_name m "" file fi)] else []),
         Some tt)
      /\ forall b, Match (with_IncludeDots b m) fs [file] = Match m fs [file])
  /\ (forall file fi,
         os_Stat fs file = inl fi -> IsDir fi = true ->
         Match m fs [file] = Readdir m fs file)
  /\ (forall dname d,
         os_Open fs dname = inl d ->
         Forall (fun fi => entry_name (Name fi) = true) (entries_read d) ->
         Readdir m fs dname
         = (flat_map (fun fi => trace (dostat m true dname (Name fi) fi))
                     (filter (fun fi => IncludeDots m || negb (dotfile (Name fi)))
                             (entries_read d))
              ++ end_of_scan_events d,
            Some tt)).
Proof.
  split; [| split].
  - intros file fi Hstat Hdir.
    assert (Hone : forall m', Match m' fs [file]
                = ((if hit_conditionb m' fi
                    then [EOut (display_name m' "" file fi)] else []), Some tt)).
    { intros m'. rewrite Match_events. cbn [flat_map]. unfold path_events.
      rewrite Hstat, Hdir, app_nil_r. unfold entry_events, dot_filtered.
      reflexivity. }
    split; [apply Hone |].
    intros b. rewrite !Hone. reflexivity.
  - intros file fi Hstat Hdir.
    rewrite Match_events, Readdir_done. cbn [flat_map]. unfold path_events.
    rewrite Hstat, Hdir, app_nil_r. reflexivity.
  - intros dname d Hopen Hnames.
    rewrite Readdir_done. unfold Readdir_events. rewrite Hopen.
    f_equal. f_equal.
    induction Hnames as [| fi fis Hname _ IH]; [reflexivity |].
    cbn [flat_map filter]. rewrite IH. clear IH.
    assert (Hfi : entry_events m false dname (Name fi) fi
                  = if IncludeDots m || negb (dotfile (Name fi))
                    then trace (dostat m true dname (Name fi) fi) else []).
    { rewrite dostat_events. unfold trace, entry_events, dot_filtered. cbn [fst].
      rewrite (Base_entry_name _ Hname).
      destruct (IncludeDots m), (dotfile (Name fi)); reflexivity. }
    rewrite Hfi.
    destruct (IncludeDots m || negb (dotfile (Name fi))); reflexivity.
Qed.

Lemma dot_check_only_on_enumerated_entries_witness :
  Match Scenario.m0 Scenario.fs [".a"%string] = ([EOut ".a"], Some tt)
  /\ Match Scenario.m0 Scenario.fs ["c"%string] = Readdir Scenario.m0 Scenario.fs "c"
  /\ Readdir Scenario.m0 Scenario.fs "c" = ([EOut "c/d"], Some tt).
Proof.
  destruct (dot_check_only_on_enumerated_entries Scenario.m0 Scenario.fs)
    as (Hfile & Hdir & Hscan).
  split; [| split].
  - destruct (Hfile ".a"%string Scenario.dot_a) as [Heq _]; [reflexivity .. |].
    rewrite Heq. reflexivity.
  - apply (Hdir "c"%string Scenario.c); reflexivity.
  - rewrite (Hscan "c"%string
                   [([Scenario.d; Scenario.e; Scenario.dot_f], None);
                    ([], Some io_EOF)]).
    + reflexivity.
    + reflexivity.
    + cbn [entries_read app]. repeat constructor.
Defined.

(** C7.  The name passed to [m.Out] for a hit is
    [filepath.Clean(filepath.Join(prefix, name))], followed by a slash if
    and only if the entry is a directory and [NoSlash] is false; the
    prefix is the empty string for an explicit argument of [Match] and
    the name of the scanned directory for an entry that [Readdir]
    enumerates. *)
Theorem display_name_of_a_hit (m : Matcher) (fs : FS) :
  (forall skipdotcheck prefix name fi n,
      In n (outputs (trace (dostat m skipdotcheck prefix name fi))) ->
      n = (filepath.Clean (filepath.Join [prefix; name])
           ++ (if IsDir fi && negb (NoSlash m) then "/" else ""))%string)
  /\ (forall prefix name fi,
         display_name m prefix name fi
         = (filepath.Clean (filepath.Join [prefix; name]) ++ "/")%string
         <-> IsDir fi = true /\ NoSlash m = false)
  /\ (forall file fi,
         os_Stat fs file = inl fi -> IsDir fi = false ->
         outputs (trace (Match m fs [file]))
         = if hit_conditionb m fi
           then [filepath.Clean (filepath.Join [""%string; file])] else [])
  /\ (forall dname d,
         os_Open fs dname = inl d ->
         outputs (trace (Readdir m fs dname))
         = map (fun fi =>
                  (filepath.Clean (filepath.Join [dname; Name fi])
                   ++ (if IsDir fi && negb (NoSlash m) then "/" else ""))%string)
               (filter (fun fi => negb (dot_filtered m false (Name fi))
                                  && hit_conditionb m fi)
                       (entries_read d))).
Proof.
  split; [| split; [| split]].
  - intros skipdotcheck prefix name fi n.
    rewrite dostat_events. unfold trace, entry_events. cbn [fst].
    destruct (dot_filtered m skipdotcheck name); [intros [] |].
    destruct (hit_conditionb m fi); [| intros []].
    intros [<- | []]. reflexivity.
  - intros prefix name fi. unfold display_name. split.
    + intros H. apply append_inj_r in H.
      destruct (IsDir fi); [| discriminate].
      destruct (NoSlash m); [discriminate | split; reflexivity].
    + intros [-> ->]. reflexivity.
  - intros file fi Hstat Hdir.
    rewrite Match_events. unfold trace, path_events. cbn [fst flat_map].
    rewrite Hstat, Hdir, app_nil_r. unfold entry_events, dot_filtered, display_name.
    rewrite Hdir. cbn [negb andb]. rewrite append_empty_r.
    destruct (hit_conditionb m fi); reflexivity.
  - intros dname d Hopen.
    rewrite Readdir_done. unfold trace, Readdir_events. cbn [fst].
    rewrite Hopen, outputs_app, outputs_end_of_scan, app_nil_r.
    apply outputs_entries.
Qed.

Lemma display_name_of_a_hit_witness :
  outputs (trace (Match Scenario.m0 Scenario.fs [".a"%string])) = [".a"%string]
  /\ outputs (trace (Readdir Scenario.m0 Scenario.fs ".")) = ["c/"%string]
  /\ "c/"%string
     = (filepath.Clean (filepath.Join ["."; "c"]%string)
        ++ (if IsDir Scenario.c && negb (NoSlash Scenario.m0) then "/" else ""))%string.
Proof.
  destruct (display_name_of_a_hit Scenario.m0 Scenario.fs)
    as (Hname & _ & Hfile & Hscan).
  split; [| split].
  - rewrite (Hfile ".a"%string Scenario.dot_a) by reflexivity. reflexivity.
  - rewrite (Hscan "."%string
                   [([Scenario.dot_a; Scenario.b; Scenario.c], None);
                    ([], Some io_EOF)]) by reflexivity.
    reflexivity.
  - apply (Hname false "."%string "c"%string Scenario.c "c/"%string).
    left. reflexivity.
Defined.

(** C8.  An explicit argument of [Match] that is a directory is handed to
    [Readdir] and to nothing else: what [Match] does for it is the scan of
    the entries read from that directory, each shown under the argument
    as prefix, and it does not depend on the directory's own metadata (its
    modification time in particular), which never reaches [dostat]. *)
Theorem explicit_directory_is_scanned_not_classified
        (m : Matcher) (fs : FS) (file : string) (fi : FileInfo) (rest : list string) :
  os_Stat fs file = inl fi -> IsDir fi = true ->
  Match m fs (file :: rest) = (Readdir m fs file ;;; Match m fs rest)
  /\ (forall d,
         os_Open fs file = inl d ->
         trace (Match m fs [file])
         = flat_map (fun child => trace (dostat m false file (Name child) child))
                    (entries_read d)
             ++ end_of_scan_events d)
  /\ (forall fi',
         IsDir fi' = true ->
         Match m (with_Stat file (inl fi') fs) [file] = Match m fs [file]).
Proof.
  intros Hstat Hdir.
  assert (Hone : forall fs', os_Stat fs' file = inl fi \/ (exists fi', os_Stat fs' file = inl fi' /\ IsDir fi' = true) ->
                             Match m fs' [file] = Readdir m fs' file).
  { intros fs' H. rewrite Match_events, Readdir_done. cbn [flat_map].
    unfold path_events.
    destruct H as [H | (fi' & H & Hdir')]; rewrite H, ?Hdir, ?Hdir', app_nil_r;
      reflexivity. }
  split; [| split].
  - rewrite !Match_events, Readdir_done, bind_done. cbn [flat_map].
    unfold trace, path_events at 1. cbn [fst snd]. rewrite Hstat, Hdir.
    reflexivity.
  - intros d Hopen. rewrite Hone by (left; exact Hstat).
    rewrite Readdir_done. unfold trace, Readdir_events. cbn [fst].
    rewrite Hopen. f_equal. apply flat_map_ext. intros child.
    rewrite dostat_events. reflexivity.
  - intros fi' Hdir'. rewrite (Hone fs) by (left; exact Hstat).
    rewrite Hone.
    + reflexivity.
    + right. exists fi'. split; [| exact Hdir'].
      unfold with_Stat. cbn [os_Stat]. rewrite String.eqb_refl. reflexivity.
Qed.

Lemma explicit_directory_is_scanned_not_classified_witness :
  hit_condition Scenario.m0 Scenario.c
  /\ Match Scenario.m0 Scenario.fs ["c"; "b"]%string
     = (Readdir Scenario.m0 Scenario.fs "c" ;;; Match Scenario.m0 Scenario.fs ["b"%string])
  /\ trace (Match Scenario.m0 Scenario.fs ["c"%string]) = [EOut "c/d"].
Proof.
  destruct (explicit_directory_is_scanned_not_classified
              Scenario.m0 Scenario.fs "c"%string Scenario.c ["b"%string])
    as (Hcons & Hscan & _); [reflexivity .. |].
  split; [| split].
  - vm_compute. reflexivity.
  - exact Hcons.
  - rewrite (Hscan [([Scenario.d; Scenario.e; Scenario.dot_f], None);
                    ([], Some io_EOF)]) by reflexivity.
    reflexivity.
Defined.

(** C9.  No failure of input or output stops [Match] or [Readdir] with a
    panic, and each is passed to [m.Log] once, where it happens.
    - When [os.Stat] fails for an argument, [Match] logs the error and
      goes on with the remaining arguments; the calls made for a list of
      arguments are those made for each argument, in order.
    - When [os.Open] fails, [Readdir] logs the error and returns.
    - Otherwise [Readdir] classifies the entries of every batch up to and
      including the first batch that comes with an error, then logs that
      error unless it is [io.EOF], and reads no further batch. *)
Theorem io_failures_are_logged_once (m : Matcher) (fs : FS) :
  (forall file rest err,
      os_Stat fs file = inr err ->
      Match m fs (file :: rest) = (Log err ;;; Match m fs rest)
      /\ trace (Match m fs (file :: rest)) = ELog err :: trace (Match m fs rest))
  /\ (forall files files',
         Match m fs (files ++ files') = (Match m fs files ;;; Match m fs files'))
  /\ (forall files, panics (Match m fs files) = false)
  /\ (forall dname err,
         os_Open fs dname = inr err ->
         Readdir m fs dname = ([ELog err], Some tt))
  /\ (forall dname batches fis err later,
         os_Open fs dname = inl (batches ++ (fis, Some err) :: later) ->
         Forall (fun r => snd r = None) batches ->
         Readdir m fs dname
         = (flat_map (fun fi => trace (dostat m false dname (Name fi) fi))
                     (flat_map fst batches ++ fis)
              ++ (if error_eqb err io_EOF then [] else [ELog err]),
            Some tt)
         /\ logged (trace (Readdir m fs dname))
            = if error_eqb err io_EOF then [] else [err]).
Proof.
  assert (Hscan : forall batches fis err later,
             Forall (fun r => snd r = None) batches ->
             entries_read (batches ++ (fis, Some err) :: later)
             = flat_map fst batches ++ fis
             /\ end_of_scan (batches ++ (fis, Some err) :: later) = err).
  { intros batches fis err later Hnone.
    induction Hnone as [| [fis0 err0] batches Herr0 _ [IHr IHe]]; [split; reflexivity |].
    cbn [snd] in Herr0. subst err0.
    cbn [app entries_read end_of_scan flat_map fst].
    rewrite IHr, IHe, <- app_assoc. split; reflexivity. }
  split; [| split; [| split; [| split]]].
  - intros file rest err Hstat.
    assert (Hfile : path_events m fs file = [ELog err])
      by (unfold path_events; rewrite Hstat; reflexivity).
    rewrite !Match_events. cbn [flat_map]. rewrite Hfile.
    split; reflexivity.
  - intros files files'. rewrite !Match_events, bind_done, flat_map_app.
    reflexivity.
  - intros files. rewrite Match_events. reflexivity.
  - intros dname err Hopen. rewrite Readdir_done. unfold Readdir_events.
    rewrite Hopen. reflexivity.
  - intros dname batches fis err later Hopen Hnone.
    destruct (Hscan batches fis err later Hnone) as [Hread Hend].
    rewrite Readdir_done. unfold trace, Readdir_events, end_of_scan_events.
    cbn [fst]. rewrite Hopen, Hread, Hend. split.
    + f_equal. f_equal. apply flat_map_ext. intros fi.
      rewrite dostat_events. reflexivity.
    + rewrite logged_app, logged_entries.
      destruct (error_eqb err io_EOF); reflexivity.
Qed.

Lemma io_failures_are_logged_once_witness :
  trace (Match Scenario.m0 Scenario.fs ["nope"; "b"; ".a"]%string)
  = [ELog Scenario.ENOENT; EOut ".a"]
  /\ Readdir Scenario.m0 Scenario.fs "locked" = ([ELog Scenario.EACCES], Some tt)
  /\ Readdir Scenario.m0 Scenario.fs "worn"
     = ([EOut "worn/w1"; EOut "worn/w2"; ELog Scenario.EIO], Some tt)
  /\ logged (trace (Readdir Scenario.m0 Scenario.fs "c")) = [].
Proof.
  destruct (io_failures_are_logged_once Scenario.m0 Scenario.fs)
    as (Hstat & _ & _ & Hopen & Hread).
  split; [| split; [| split]].
  - destruct (Hstat "nope"%string ["b"; ".a"]%string Scenario.ENOENT) as [_ Htrace];
      [reflexivity |].
    rewrite Htrace. reflexivity.
  - apply (Hopen "locked"%string Scenario.EACCES). reflexivity.
  - destruct (Hread "worn"%string [([Scenario.w1], None)] [Scenario.w2]
                    Scenario.EIO [([Scenario.w3], None)]) as [Heq _].
    + reflexivity.
    + repeat constructor.
    + rewrite Heq. reflexivity.
  - destruct (Hread "c"%string
                    [([Scenario.d; Scenario.e; Scenario.dot_f], None)] []
                    io_EOF []) as [_ Hlog].
    + reflexivity.
    + repeat constructor.
    + rewrite Hlog. reflexivity.
Defined.

(** C10.  The base name of every path, the empty one included, is not
    empty (the base name of the empty path is a dot), so the index
    expression of the dot check has a byte to read; [dostat] returns for
    every matcher, prefix, name and entry without a panic, and so do
    [Readdir] and [Match]. *)
Theorem dot_check_never_panics (name : string) :
  filepath.Base name <> ""%string
  /\ filepath.Base "" = "."%string
  /\ (exists c, index (filepath.Base name) 0 = ret c)
  /\ (forall m skipdotcheck prefix fi,
         panics (dostat m skipdotcheck prefix name fi) = false
         /\ exists t, dostat m skipdotcheck prefix name fi = (t, Some tt))
  /\ (forall m fs, panics (Readdir m fs name) = false)
  /\ (forall m fs files, panics (Match m fs (name :: files)) = false).
Proof.
  split; [apply Base_not_empty |]. split; [reflexivity |].
  split; [destruct (index_Base name) as (c & Hc & _); exists c; exact Hc |].
  split; [| split].
  - intros m skipdotcheck prefix fi. rewrite dostat_events.
    split; [reflexivity | eexists; reflexivity].
  - intros m fs. rewrite Readdir_done. reflexivity.
  - intros m fs files. rewrite Match_events. reflexivity.
Qed.

(* ================================================================== *)
(** ** The examples of the manual *)

(** [filepath.Clean] on some rows of the table that Go tests it with. *)
Example Clean_examples :
  map filepath.Clean
      ["abc"; "abc/def"; "."; ".."; "../.."; "/"; ""; "abc/"; "abc//def";
       "abc/./def"; "abc/def/../ghi/../jkl"; "abc/def/../../..";
       "/abc/def/../../.."; "abc/def/../../../ghi/jkl/../../../mno";
       "/../abc"; "abc/../../././../def"]%string
  = ["abc"; "abc/def"; "."; ".."; "../.."; "/"; "."; "abc"; "abc/def";
     "abc/def"; "abc/jkl"; ".."; "/"; "../../mno"; "/abc"; "../../def"]%string.
Proof. reflexivity. Qed.

Example Base_examples :
  map filepath.Base [""; "/"; "///"; "a/b/"; "a/b"; ".a"; "c/.f"]%string
  = ["."; "/"; "/"; "b"; "b"; ".a"; ".f"]%string.
Proof. reflexivity. Qed.

(** [$ recent] prints [c/]. *)
Example manual_no_arguments :
  main Scenario.T Scenario.fs Scenario.no_flags [] = Ok ([EOut "c/"], Some tt).
Proof. reflexivity. Qed.

(** [$ recent -v] prints [b]. *)
Example manual_invert :
  main Scenario.T Scenario.fs
       (mkFlags true false false false false 0 0 0 0 0) []
  = Ok ([EOut "b"], Some tt).
Proof. reflexivity. Qed.

(** [$ recent c] prints [c/d], and not [c/] itself. *)
Example manual_directory_argument :
  main Scenario.T Scenario.fs Scenario.no_flags ["c"%string]
  = Ok ([EOut "c/d"], Some tt).
Proof. reflexivity. Qed.

(** [$ recent -no/ -.] prints [.a] and [c]. *)
Example manual_noslash_dots :
  main Scenario.T Scenario.fs
       (mkFlags false true true false false 0 0 0 0 0) []
  = Ok ([EOut ".a"; EOut "c"], Some tt).
Proof. reflexivity. Qed.

(** [$ recent .a] prints [.a]. *)
Example manual_explicit_dot_file :
  main Scenario.T Scenario.fs Scenario.no_flags [".a"%string]
  = Ok ([EOut ".a"], Some tt).
Proof. reflexivity. Qed.

(** [$ recent -. -v -d 2 b c] prints [b], [c/e] and [c/.f]. *)
Example manual_two_days_inverted :
  main Scenario.T Scenario.fs
       (mkFlags true true false false false 0 0 2 0 0) ["b"; "c"]%string
  = Ok ([EOut "b"; EOut "c/e"; EOut "c/.f"], Some tt).
Proof. reflexivity. Qed.

(** Arguments that fail do not stop the later ones. *)
Example failing_arguments :
  main Scenario.T Scenario.fs Scenario.no_flags
       ["nope"; "locked"; "worn"; "b"; ".a"]%string
  = Ok ([ELog Scenario.ENOENT; ELog Scenario.EACCES;
         EOut "worn/w1"; EOut "worn/w2"; ELog Scenario.EIO; EOut ".a"],
        Some tt).
Proof. reflexivity. Qed.

(* ================================================================== *)
(** ** The duration accumulator: further properties *)

Section AccumulatorMore.

Import GoInt GoIntFacts.

Variables years months days hours minutes : Z.

Hypothesis Hyears : is_uint years.
Hypothesis Hmonths : is_uint months.
Hypothesis Hdays : is_uint days.
Hypothesis Hhours : is_uint hours.
Hypothesis Hminutes : is_uint minutes.

(** The year-equivalents add up without wrapping around. *)
Hypothesis Hsum : year_equivalent years months days hours minutes < uint_modulus.

Lemma accepted_total_range :
  overflowCheck years months days hours minutes = Ok tt ->
  0 <= exact_total years months days hours minutes < 294 * year.
Proof.
  intros Hok. unfold is_uint in *. split.
  - apply exact_total_nonneg; lia.
  - apply year_equivalent_bounds_total; try lia.
    apply overflowCheck_below_modulus; assumption.
Qed.

Lemma accepted_duration_cases :
  overflowCheck years months days hours minutes = Ok tt ->
  (exact_total years months days hours minutes <= maxInt64
   /\ toDuration years months days hours minutes
      = exact_total years months days hours minutes)
  \/ (maxInt64 < exact_total years months days hours minutes
      /\ toDuration years months days hours minutes
         = exact_total years months days hours minutes - 2 ^ 64
      /\ toDuration years months days hours minutes < 0).
Proof.
  intros Hok. pose proof (accepted_total_range Hok) as Hrange.
  rewrite toDuration_wraps.
  set (total := exact_total years months days hours minutes) in *.
  assert (Hyear : 294 * year < 2 ^ 64) by (vm_compute; reflexivity).
  destruct (Z_le_gt_dec total maxInt64) as [Hfits | Hover].
  - left. split; [exact Hfits |].
    apply wrap_int64_small. unfold is_int64, minInt64, maxInt64 in *. lia.
  - right. unfold maxInt64 in *. split; [lia |].
    assert (Hwrap : wrap_int64 total = total - 2 ^ 64).
    { unfold wrap_int64.
      replace (total + 2 ^ 63) with (total - 2 ^ 63 + 1 * 2 ^ 64) by lia.
      rewrite Z_mod_plus_full, Z.mod_small by lia. lia. }
    rewrite Hwrap. split; [reflexivity | lia].
Qed.

End AccumulatorMore.

(** X1.  For counts whose year-equivalents add up to less than [2^64],
    [overflowCheck] ends the process with its message exactly when the sum
    of the year-equivalents exceeds 290, and returns otherwise. *)
Theorem overflowCheck_follows_the_sum (years months days hours minutes : Z) :
  GoInt.is_uint years -> GoInt.is_uint months -> GoInt.is_uint days ->
  GoInt.is_uint hours -> GoInt.is_uint minutes ->
  year_equivalent years months days hours minutes < GoInt.uint_modulus ->
  overflowCheck years months days hours minutes
  = if 290 <? year_equivalent years months days hours minutes
    then Fatal "Maximum duration is 290 years. How old are your files?"
    else Ok tt.
Proof.
  intros Hy HM Hd Hh Hm Hsum.
  pose proof (overflowCheck_below_modulus years months days hours minutes
                Hy HM Hd Hh Hm Hsum) as Hiff.
  destruct (Z.ltb_spec 290 (year_equivalent years months days hours minutes))
    as [Hlt | Hle].
  - unfold overflowCheck in *.
    destruct (290 <? _); [reflexivity |].
    assert (Hno : year_equivalent years months days hours minutes <= 290)
      by (apply Hiff; reflexivity).
    lia.
  - apply Hiff. exact Hle.
Qed.

Lemma overflowCheck_follows_the_sum_witness :
  overflowCheck 200 1200 0 0 0
  = Fatal "Maximum duration is 290 years. How old are your files?"
  /\ overflowCheck 0 3491 0 0 0 = Ok tt.
Proof.
  split.
  - rewrite (overflowCheck_follows_the_sum 200 1200 0 0 0);
      unfold GoInt.is_uint; try (vm_compute; split; [discriminate | reflexivity]);
      reflexivity.
  - rewrite (overflowCheck_follows_the_sum 0 3491 0 0 0);
      unfold GoInt.is_uint; try (vm_compute; split; [discriminate | reflexivity]);
      reflexivity.
Defined.

(** X2.  The counts that [overflowCheck] accepts (their year-equivalents
    adding up without wrapping) have a total of less than 294 years of 365
    days: the guard lets the total exceed 290 years by what the four
    divisions drop. *)
Theorem accepted_total_below_294_years (years months days hours minutes : Z) :
  GoInt.is_uint years -> GoInt.is_uint months -> GoInt.is_uint days ->
  GoInt.is_uint hours -> GoInt.is_uint minutes ->
  year_equivalent years months days hours minutes < GoInt.uint_modulus ->
  overflowCheck years months days hours minutes = Ok tt ->
  0 <= exact_total years months days hours minutes
  /\ exact_total years months days hours minutes
     < 294 * (365 * (86400 * time.Second)).
Proof.
  intros Hy HM Hd Hh Hm Hsum Hok.
  exact (accepted_total_range years months days hours minutes
           Hy HM Hd Hh Hm Hsum Hok).
Qed.

Lemma accepted_total_below_294_years_witness :
  exact_total 290 11 364 8759 525599 < 294 * (365 * (86400 * time.Second)).
Proof.
  apply (accepted_total_below_294_years 290 11 364 8759 525599);
    unfold GoInt.is_uint; try (vm_compute; split; [discriminate | reflexivity]);
    reflexivity.
Defined.

(** X3.  For accepted counts, the duration of [toDuration] is the exact
    total when that total fits a duration, and a negative duration (the
    total less [2^64] nanoseconds) when it does not: it is never a positive
    duration other than the total. *)
Theorem accepted_duration_exact_or_negative (years months days hours minutes : Z) :
  GoInt.is_uint years -> GoInt.is_uint months -> GoInt.is_uint days ->
  GoInt.is_uint hours -> GoInt.is_uint minutes ->
  year_equivalent years months days hours minutes < GoInt.uint_modulus ->
  overflowCheck years months days hours minutes = Ok tt ->
  (exact_total years months days hours minutes <= time.maxDuration
   /\ toDuration years months days hours minutes
      = exact_total years months days hours minutes)
  \/ (time.maxDuration < exact_total years months days hours minutes
      /\ toDuration years months days hours minutes
         = exact_total years months days hours minutes - 2 ^ 64
      /\ toDuration years months days hours minutes < 0).
Proof.
  intros Hy HM Hd Hh Hm Hsum Hok.
  exact (accepted_duration_cases years months days hours minutes
           Hy HM Hd Hh Hm Hsum Hok).
Qed.

Lemma accepted_duration_exact_or_negative_witness :
  (exact_total 0 1 3 5 0 <= time.maxDuration
   /\ toDuration 0 1 3 5 0 = exact_total 0 1 3 5 0)
  \/ (time.maxDuration < exact_total 0 1 3 5 0
      /\ toDuration 0 1 3 5 0 = exact_total 0 1 3 5 0 - 2 ^ 64
      /\ toDuration 0 1 3 5 0 < 0).
Proof.
  apply (accepted_duration_exact_or_negative 0 1 3 5 0);
    unfold GoInt.is_uint; try (vm_compute; split; [discriminate | reflexivity]);
    reflexivity.
Defined.

(** X4.  The units convert into one another inside [toDuration]: an hour
    counts as 60 minutes, a day as 24 hours, a month as 30 days and a year
    as 365 days, so that for instance [-d 1 -h 12] and [-h 36] give the
    same duration. *)
Theorem toDuration_unit_conversions (years months days hours mins : Z) :
  toDuration years months days (hours + 1) mins
  = toDuration years months days hours (mins + 60)
  /\ toDuration years months (days + 1) hours mins
     = toDuration years months days (hours + 24) mins
  /\ toDuration years (months + 1) days hours mins
     = toDuration years months (days + 30) hours mins
  /\ toDuration (years + 1) months days hours mins
     = toDuration years months (days + 365) hours mins.
Proof.
  rewrite !toDuration_wraps.
  repeat split; f_equal;
    unfold exact_total, year, month, day, time.Hour, time.Minute; lia.
Qed.

Lemma allZero_five (y mo d h mi : Z) :
  allZero [y; mo; d; h; mi] = true
  <-> y = 0 /\ mo = 0 /\ d = 0 /\ h = 0 /\ mi = 0.
Proof.
  rewrite allZero_spec. split.
  - intros H.
    inversion H as [| ? ? Hy H1]; subst. inversion H1 as [| ? ? HM H2]; subst.
    inversion H2 as [| ? ? Hd H3]; subst. inversion H3 as [| ? ? Hh H4]; subst.
    inversion H4 as [| ? ? Hm _]; subst. repeat split; reflexivity.
  - intros (-> & -> & -> & -> & ->). repeat constructor.
Qed.

Lemma main_Recent_Ok (print0 noPrint : bool) (y mo d h mi : Z) (r : time.Duration) :
  main_Recent print0 noPrint y mo d h mi = Ok r ->
  overflowCheck y mo d h mi = Ok tt
  /\ print0 && noPrint = false
  /\ r = toDuration y mo (if allZero [y; mo; d; h; mi] then 1 else d) h mi.
Proof.
  unfold main_Recent.
  destruct (overflowCheck y mo d h mi) as [[] | msg]; [| discriminate].
  destruct (print0 && noPrint); [discriminate |].
  intros [= <-]. repeat split; reflexivity.
Qed.

(** X5.  [main] replaces the counts by one day only when all five are
    zero.  When it computes a threshold, either the five counts are zero
    and the threshold is 86400 seconds, or some count is not zero and the
    threshold is [toDuration] of the counts as given. *)
Theorem default_only_when_all_counts_are_zero
        (print0 noPrint : bool) (y mo d h mi : Z) (r : time.Duration) :
  main_Recent print0 noPrint y mo d h mi = Ok r ->
  (y = 0 /\ mo = 0 /\ d = 0 /\ h = 0 /\ mi = 0 /\ r = 86400 * time.Second)
  \/ ((y <> 0 \/ mo <> 0 \/ d <> 0 \/ h <> 0 \/ mi <> 0)
      /\ r = toDuration y mo d h mi).
Proof.
  intros Hr. apply main_Recent_Ok in Hr. destruct Hr as (_ & _ & ->).
  destruct (allZero [y; mo; d; h; mi]) eqn:Hzero.
  - left. apply allZero_five in Hzero.
    destruct Hzero as (-> & -> & -> & -> & ->). repeat split; reflexivity.
  - right. split; [| reflexivity].
    destruct (Z.eq_dec y 0) as [-> | ?]; [| auto].
    destruct (Z.eq_dec mo 0) as [-> | ?]; [| auto].
    destruct (Z.eq_dec d 0) as [-> | ?]; [| auto].
    destruct (Z.eq_dec h 0) as [-> | ?]; [| auto].
    destruct (Z.eq_dec mi 0) as [-> | ?]; [| auto 6].
    discriminate Hzero.
Qed.

Lemma default_only_when_all_counts_are_zero_witness :
  (0 = 0 /\ 1 = 0 /\ 3 = 0 /\ 5 = 0 /\ 0 = 0
   /\ toDuration 0 1 3 5 0 = 86400 * time.Second)
  \/ ((0 <> 0 \/ 1 <> 0 \/ 3 <> 0 \/ 5 <> 0 \/ 0 <> 0)
      /\ toDuration 0 1 3 5 0 = toDuration 0 1 3 5 0).
Proof.
  apply (default_only_when_all_counts_are_zero false false 0 1 3 5 0).
  reflexivity.
Defined.

(** X6.  The threshold that [main] computes is never zero (for counts
    whose year-equivalents add up without wrapping): with all counts zero
    it is one day, and otherwise it is the positive total or, when the
    total does not fit, a negative duration. *)
Theorem threshold_is_never_zero
        (print0 noPrint : bool) (y mo d h mi : Z) (r : time.Duration) :
  GoInt.is_uint y -> GoInt.is_uint mo -> GoInt.is_uint d ->
  GoInt.is_uint h -> GoInt.is_uint mi ->
  year_equivalent y mo d h mi < GoInt.uint_modulus ->
  main_Recent print0 noPrint y mo d h mi = Ok r ->
  r <> 0.
Proof.
  intros Hy HM Hd Hh Hm Hsum Hr.
  pose proof (main_Recent_Ok _ _ _ _ _ _ _ _ Hr) as (Hok & _ & Hreq).
  destruct (allZero [y; mo; d; h; mi]) eqn:Hzero.
  - apply allZero_five in Hzero. destruct Hzero as (-> & -> & -> & -> & ->).
    subst r. vm_compute. discriminate.
  - subst r.
    assert (Hpos : 0 < exact_total y mo d h mi).
    { unfold GoInt.is_uint in *.
      assert (Hsome : 0 < y \/ 0 < mo \/ 0 < d \/ 0 < h \/ 0 < mi).
      { destruct (Z.eq_dec y 0) as [-> | ?]; [| lia].
        destruct (Z.eq_dec mo 0) as [-> | ?]; [| lia].
        destruct (Z.eq_dec d 0) as [-> | ?]; [| lia].
        destruct (Z.eq_dec h 0) as [-> | ?]; [| lia].
        destruct (Z.eq_dec mi 0) as [-> | ?]; [| lia].
        discriminate Hzero. }
      unfold exact_total, year, month, day, time.Hour, time.Minute, time.Second,
        time.Millisecond, time.Microsecond, time.Nanosecond.
      lia. }
    destruct (accepted_duration_cases y mo d h mi Hy HM Hd Hh Hm Hsum Hok)
      as [(_ & Heq) | (_ & _ & Hneg)]; lia.
Qed.

Lemma threshold_is_never_zero_witness :
  toDuration 0 0 0 36 0 <> 0.
Proof.
  apply (threshold_is_never_zero false false 0 0 0 36 0);
    unfold GoInt.is_uint; try (vm_compute; split; [discriminate | reflexivity]);
    reflexivity.
Defined.

(* ================================================================== *)
(** ** Names that [filepath.Clean] leaves alone *)

Section PlainNames.

Import filepath.
Local Open Scope list_scope.

Lemma is_dot_eq (c : ascii) : is_dot c = true -> c = "."%char.
Proof. unfold is_dot. apply Ascii.eqb_eq. Qed.

Lemma at_end_or_sep_app (c : ascii) (t rest : list ascii) :
  IsPathSeparator c = false -> at_end_or_sep ((c :: t) ++ rest) = false.
Proof. intros H. exact H. Qed.

Lemma copy_to_end (rooted : bool) (e out : list ascii) (dotdot : nat) :
  forallb (fun c => negb (IsPathSeparator c)) e = true ->
  clean_loop rooted e true out dotdot = (rev e ++ out)%list.
Proof.
  revert out. induction e as [| c e IH]; intros out Hall; [reflexivity |].
  cbn [forallb] in Hall. apply andb_prop in Hall. destruct Hall as [Hc He].
  apply negb_true_iff in Hc. cbn [clean_loop]. rewrite Hc, IH by exact He.
  cbn [rev]. rewrite <- app_assoc. reflexivity.
Qed.

Lemma copy_to_separator (rooted : bool) (e more out : list ascii) (dotdot : nat) :
  forallb (fun c => negb (IsPathSeparator c)) e = true ->
  clean_loop rooted (e ++ Separator :: more) true out dotdot
  = clean_loop rooted more false (rev e ++ out)%list dotdot.
Proof.
  revert out. induction e as [| c e IH]; intros out Hall; [reflexivity |].
  cbn [forallb] in Hall. apply andb_prop in Hall. destruct Hall as [Hc He].
  apply negb_true_iff in Hc. cbn [clean_loop app]. rewrite Hc, IH by exact He.
  cbn [rev]. rewrite <- app_assoc. reflexivity.
Qed.

(** The first byte of a kept element starts the copy, after a separator
    when the buffer is not empty. *)
Lemma element_start (c : ascii) (t rest out : list ascii) (dotdot : nat) :
  plain (c :: t) -> element_end rest ->
  clean_loop false ((c :: t) ++ rest) false out dotdot
  = clean_loop false (t ++ rest) true
      (c :: (if negb (List.length out =? 0)%nat then Separator :: out else out))
      dotdot.
Proof.
  intros (_ & Hall & Hdot & Hdotdot) Hend.
  cbn [forallb] in Hall. apply andb_prop in Hall. destruct Hall as [Hc Ht].
  apply negb_true_iff in Hc.
  cbn [clean_loop app]. rewrite Hc. cbn [andb negb orb].
  assert (Hone : is_dot c && at_end_or_sep (t ++ rest) = false).
  { destruct (is_dot c) eqn:Hd; [| reflexivity]. apply is_dot_eq in Hd. subst c.
    destruct t as [| c' t']; [contradiction Hdot; reflexivity |].
    cbn [forallb] in Ht. apply andb_prop in Ht. destruct Ht as [Hc' _].
    apply negb_true_iff in Hc'. exact Hc'. }
  rewrite Hone.
  destruct (t ++ rest) as [| c' t'] eqn:Htr; [reflexivity |].
  assert (Htwo : is_dot c && is_dot c' && at_end_or_sep t' = false).
  { destruct (is_dot c) eqn:Hd; [| reflexivity]. apply is_dot_eq in Hd. subst c.
    destruct (is_dot c') eqn:Hd'; [| reflexivity]. apply is_dot_eq in Hd'. subst c'.
    destruct t as [| c1 t1].
    - destruct Hend as [-> | [more ->]]; discriminate Htr.
    - cbn [app] in Htr. injection Htr as -> Ht'.
      destruct t1 as [| c2 t2]; [contradiction Hdotdot; reflexivity |].
      cbn [forallb] in Ht. apply andb_prop in Ht. destruct Ht as [_ Ht2].
      apply andb_prop in Ht2. destruct Ht2 as [Hc2 _].
      apply negb_true_iff in Hc2. cbn [app] in Ht'. subst t'. exact Hc2. }
  rewrite Htwo. reflexivity.
Qed.

Lemma clean_element (e rest out : list ascii) (dotdot : nat) :
  plain e -> element_end rest ->
  clean_loop false (e ++ rest) false out dotdot
  = match rest with
    | [] =>
        (rev e ++ (if negb (List.length out =? 0)%nat then Separator :: out else out))%list
    | _ :: more =>
        clean_loop false more false
          (rev e ++ (if negb (List.length out =? 0)%nat then Separator :: out else out))%list
          dotdot
    end.
Proof.
  intros Hplain Hend. destruct e as [| c t]; [destruct Hplain as [[] _]; reflexivity |].
  rewrite (element_start c t rest out dotdot Hplain Hend).
  destruct Hplain as (_ & Hall & _).
  cbn [forallb] in Hall. apply andb_prop in Hall. destruct Hall as [_ Ht].
  destruct Hend as [-> | [more ->]].
  - rewrite app_nil_r, copy_to_end by exact Ht.
    cbn [rev]. rewrite <- app_assoc. reflexivity.
  - rewrite copy_to_separator by exact Ht.
    cbn [rev]. rewrite <- app_assoc. reflexivity.
Qed.

Lemma list_ascii_of_string_app (s1 s2 : string) :
  list_ascii_of_string (s1 ++ s2)%string
  = (list_ascii_of_string s1 ++ list_ascii_of_string s2)%list.
Proof.
  induction s1 as [| c s1 IH]; [reflexivity |].
  cbn. rewrite IH. reflexivity.
Qed.

Lemma plain_name_plain (name : string) :
  plain_name name = true -> plain (list_ascii_of_string name).
Proof.
  unfold plain_name, entry_name. intros H.
  apply andb_prop in H. destruct H as [H Hdd].
  apply andb_prop in H. destruct H as [H Hd].
  apply andb_prop in H. destruct H as [Hne Hsep].
  apply negb_true_iff in Hne, Hd, Hdd.
  apply String.eqb_neq in Hne, Hd, Hdd.
  repeat split.
  - intros Hnil. apply Hne.
    rewrite <- (string_of_list_ascii_of_string name), Hnil. reflexivity.
  - apply no_separator_forallb. exact Hsep.
  - intros Heq. apply Hd.
    rewrite <- (string_of_list_ascii_of_string name), Heq. reflexivity.
  - intros Heq. apply Hdd.
    rewrite <- (string_of_list_ascii_of_string name), Heq. reflexivity.
Qed.

Lemma plain_not_rooted (e : list ascii) :
  plain e -> exists c t, e = c :: t /\ IsPathSeparator c = false.
Proof.
  intros (Hne & Hall & _). destruct e as [| c t]; [contradiction |].
  exists c, t. split; [reflexivity |].
  cbn [forallb] in Hall. apply andb_prop in Hall. destruct Hall as [Hc _].
  apply negb_true_iff. exact Hc.
Qed.

(** [Clean] returns a plain name as it is. *)
Lemma Clean_plain (name : string) :
  plain_name name = true -> Clean name = name.
Proof.
  intros Hname. pose proof (plain_name_plain name Hname) as Hplain.
  destruct (plain_not_rooted _ Hplain) as (c & t & Heq & Hc).
  unfold Clean. rewrite Heq, Hc. rewrite <- Heq.
  pose proof (clean_element _ [] [] 0%nat Hplain (or_introl eq_refl)) as Hloop.
  rewrite app_nil_r in Hloop. rewrite Hloop. cbn [List.length Nat.eqb negb].
  rewrite app_nil_r.
  destruct (rev (list_ascii_of_string name)) as [| c' r'] eqn:Hrev.
  - apply (f_equal (@rev ascii)) in Hrev. rewrite rev_involutive in Hrev.
    rewrite Heq in Hrev. discriminate Hrev.
  - rewrite <- Hrev, rev_involutive. apply string_of_list_ascii_of_string.
Qed.

(** [Clean] returns a plain name under a plain directory name as it is. *)
Lemma Clean_plain_pair (dname name : string) :
  plain_name dname = true -> plain_name name = true ->
  Clean (dname ++ "/" ++ name)%string = (dname ++ "/" ++ name)%string.
Proof.
  intros Hdname Hname.
  pose proof (plain_name_plain dname Hdname) as Hd.
  pose proof (plain_name_plain name Hname) as Hn.
  destruct (plain_not_rooted _ Hd) as (c & t & Heq & Hc).
  assert (Hlist : list_ascii_of_string (dname ++ "/" ++ name)%string
                  = (list_ascii_of_string dname
                     ++ Separator :: list_ascii_of_string name)%list).
  { rewrite list_ascii_of_string_app. reflexivity. }
  unfold Clean. rewrite Hlist, Heq. cbn [app]. rewrite Hc.
  change (c :: (t ++ Separator :: list_ascii_of_string name)%list)
    with ((c :: t) ++ Separator :: list_ascii_of_string name)%list.
  rewrite <- Heq.
  rewrite (clean_element _ _ [] 0%nat Hd
             (or_intror (ex_intro _ (list_ascii_of_string name) eq_refl))).
  cbn [List.length Nat.eqb negb]. rewrite app_nil_r.
  pose proof (clean_element _ [] (rev (list_ascii_of_string dname)) 0%nat Hn
                (or_introl eq_refl)) as Hloop.
  rewrite app_nil_r in Hloop. rewrite Hloop.
  assert (Hlen : (List.length (rev (list_ascii_of_string dname)) =? 0)%nat = false).
  { rewrite length_rev, Heq. reflexivity. }
  rewrite Hlen. cbn [negb].
  assert (Hout : (rev (list_ascii_of_string name)
                  ++ Separator :: rev (list_ascii_of_string dname))%list
                 = rev (list_ascii_of_string (dname ++ "/" ++ name)%string)).
  { rewrite Hlist, rev_app_distr. cbn [rev]. rewrite <- app_assoc. reflexivity. }
  rewrite Hout.
  destruct (rev (list_ascii_of_string (dname ++ "/" ++ name)%string))
    as [| c' r'] eqn:Hrev.
  - apply (f_equal (@rev ascii)) in Hrev. rewrite rev_involutive, Hlist, Heq in Hrev.
    discriminate Hrev.
  - rewrite <- Hrev, rev_involutive. apply string_of_list_ascii_of_string.
Qed.

(** Under the directory [.], [Clean] returns the plain name alone. *)
Lemma Clean_dot_plain (name : string) :
  plain_name name = true -> Clean ("." ++ "/" ++ name)%string = name.
Proof.
  intros Hname. rewrite <- (Clean_plain name Hname) at 2.
  pose proof (plain_name_plain name Hname) as Hn.
  destruct (plain_not_rooted _ Hn) as (c & t & Heq & Hc).
  unfold Clean. cbn [append list_ascii_of_string].
  rewrite Heq, Hc. reflexivity.
Qed.

End PlainNames.

Lemma string_append_assoc (a b c : string) :
  ((a ++ b) ++ c)%string = (a ++ (b ++ c))%string.
Proof.
  induction a as [| x a IH]; simpl; [reflexivity | rewrite IH; reflexivity].
Qed.

Lemma plain_name_not_empty (name : string) :
  plain_name name = true -> String.eqb name "" = false.
Proof.
  unfold plain_name, entry_name. intros H.
  apply andb_prop in H. destruct H as [H _].
  apply andb_prop in H. destruct H as [H _].
  apply andb_prop in H. destruct H as [H _].
  apply negb_true_iff. exact H.
Qed.

Lemma Join_plain (name : string) :
  plain_name name = true -> filepath.Join [""%string; name] = name.
Proof.
  intros H. cbn [filepath.Join String.eqb].
  rewrite (plain_name_not_empty name H). cbn [String.concat].
  apply Clean_plain. exact H.
Qed.

Lemma Join_dot_plain (name : string) :
  plain_name name = true -> filepath.Join ["."%string; name] = name.
Proof.
  intros H. cbn [filepath.Join String.eqb Ascii.eqb Bool.eqb String.concat].
  apply (Clean_dot_plain name H).
Qed.

Lemma Join_plain_pair (dname name : string) :
  plain_name dname = true -> plain_name name = true ->
  filepath.Join [dname; name] = (dname ++ "/" ++ name)%string.
Proof.
  intros Hd Hn. cbn [filepath.Join].
  rewrite (plain_name_not_empty dname Hd). cbn [String.concat].
  apply (Clean_plain_pair dname name Hd Hn).
Qed.

(** X7.  Plain names (not empty, without slash, neither [.] nor [..])
    are shown as they are.  A plain file named on the command line is
    printed as it was given; the plain entries of the directory [.] are
    printed by their name alone; and the plain entries of a directory with
    a plain name are printed as [directory/entry], directories being
    followed by a slash unless [NoSlash] is set. *)
Theorem plain_names_are_shown_as_given (m : Matcher) (fs : FS) :
  (forall file fi,
      plain_name file = true ->
      os_Stat fs file = inl fi -> IsDir fi = false ->
      outputs (trace (Match m fs [file]))
      = if hit_conditionb m fi then [file] else [])
  /\ (forall d,
         os_Open fs "." = inl d ->
         Forall (fun fi => plain_name (Name fi) = true) (entries_read d) ->
         outputs (trace (Readdir m fs "."))
         = map (fun fi =>
                  (Name fi ++ (if IsDir fi && negb (NoSlash m) then "/" else ""))%string)
               (filter (fun fi => negb (dot_filtered m false (Name fi))
                                  && hit_conditionb m fi)
                       (entries_read d)))
  /\ (forall dname d,
         plain_name dname = true ->
         os_Open fs dname = inl d ->
         Forall (fun fi => plain_name (Name fi) = true) (entries_read d) ->
         outputs (trace (Readdir m fs dname))
         = map (fun fi =>
                  (dname ++ "/" ++ Name fi
                   ++ (if IsDir fi && negb (NoSlash m) then "/" else ""))%string)
               (filter (fun fi => negb (dot_filtered m false (Name fi))
                                  && hit_conditionb m fi)
                       (entries_read d))).
Proof.
  assert (Hscan : forall dname d (shown : FileInfo -> string),
             os_Open fs dname = inl d ->
             (forall fi, In fi (entries_read d) ->
                         display_name m dname (Name fi) fi = shown fi) ->
             outputs (trace (Readdir m fs dname))
             = map shown
                   (filter (fun fi => negb (dot_filtered m false (Name fi))
                                      && hit_conditionb m fi)
                           (entries_read d))).
  { intros dname d shown Hopen Hshown.
    rewrite Readdir_done. unfold trace, Readdir_events. cbn [fst].
    rewrite Hopen, outputs_app, outputs_end_of_scan, app_nil_r, outputs_entries.
    apply map_ext_in. intros fi Hin. apply filter_In in Hin.
    apply Hshown. apply Hin. }
  split; [| split].
  - intros file fi Hplain Hstat Hdir.
    rewrite Match_events. unfold trace, path_events. cbn [fst flat_map].
    rewrite Hstat, Hdir, app_nil_r. unfold entry_events, dot_filtered, display_name.
    rewrite Hdir, (Join_plain file Hplain), (Clean_plain file Hplain).
    cbn [negb andb]. rewrite append_empty_r.
    destruct (hit_conditionb m fi); reflexivity.
  - intros d Hopen Hnames. apply (Hscan "."%string d _ Hopen).
    intros fi Hin. rewrite Forall_forall in Hnames. specialize (Hnames fi Hin).
    unfold display_name.
    rewrite (Join_dot_plain _ Hnames), (Clean_plain _ Hnames). reflexivity.
  - intros dname d Hdname Hopen Hnames. apply (Hscan dname d _ Hopen).
    intros fi Hin. rewrite Forall_forall in Hnames. specialize (Hnames fi Hin).
    unfold display_name.
    rewrite (Join_plain_pair _ _ Hdname Hnames), (Clean_plain_pair _ _ Hdname Hnames).
    rewrite string_append_assoc. reflexivity.
Qed.

Lemma plain_names_are_shown_as_given_witness :
  outputs (trace (Match Scenario.m0 Scenario.fs [".a"%string])) = [".a"%string]
  /\ outputs (trace (Readdir Scenario.m0 Scenario.fs ".")) = ["c/"%string]
  /\ outputs (trace (Readdir Scenario.m0 Scenario.fs "c")) = ["c/d"%string].
Proof.
  destruct (plain_names_are_shown_as_given Scenario.m0 Scenario.fs)
    as (Hfile & Hdot & Hdir).
  split; [| split].
  - rewrite (Hfile ".a"%string Scenario.dot_a); reflexivity.
  - rewrite (Hdot [([Scenario.dot_a; Scenario.b; Scenario.c], None);
                   ([], Some io_EOF)]).
    + reflexivity.
    + reflexivity.
    + cbn [entries_read app]. repeat constructor.
  - rewrite (Hdir "c"%string
                  [([Scenario.d; Scenario.e; Scenario.dot_f], None);
                   ([], Some io_EOF)]).
    + reflexivity.
    + reflexivity.
    + reflexivity.
    + cbn [entries_read app]. repeat constructor.
Defined.

(* ================================================================== *)
(** ** The matcher: further properties *)

Lemma outputs_flat_map_incl {A : Type} (f g : A -> list event) (l : list A) :
  (forall x, incl (outputs (f x)) (outputs (g x))) ->
  incl (outputs (flat_map f l)) (outputs (flat_map g l)).
Proof.
  intros Hfg. induction l as [| x l IH]; [apply incl_refl |].
  cbn [flat_map]. rewrite !outputs_app. apply incl_app_app; [apply Hfg | exact IH].
Qed.

Section Monotone.

(** The matcher [m'] reports every entry that [m] reports, under the
    same name. *)
Variables m m' : Matcher.
Hypothesis Hentry : forall skipdotcheck prefix name fi,
    incl (outputs (entry_events m skipdotcheck prefix name fi))
         (outputs (entry_events m' skipdotcheck prefix name fi)).

Variable fs : FS.

Lemma Readdir_events_incl (dname : string) :
  incl (outputs (Readdir_events m fs dname)) (outputs (Readdir_events m' fs dname)).
Proof.
  unfold Readdir_events. destruct (os_Open fs dname) as [d | err]; [| apply incl_refl].
  rewrite !outputs_app, !outputs_end_of_scan, !app_nil_r.
  apply outputs_flat_map_incl. intros fi. apply Hentry.
Qed.

Lemma path_events_incl (file : string) :
  incl (outputs (path_events m fs file)) (outputs (path_events m' fs file)).
Proof.
  unfold path_events. destruct (os_Stat fs file) as [fi | err]; [| apply incl_refl].
  destruct (IsDir fi); [apply Readdir_events_incl | apply Hentry].
Qed.

Lemma main_run_incl (args : list string) :
  incl (outputs (trace (main_run m fs args)))
       (outputs (trace (main_run m' fs args))).
Proof.
  unfold main_run. destruct (0 <? List.length args)%nat.
  - rewrite !Match_events. apply outputs_flat_map_incl. apply path_events_incl.
  - rewrite !Readdir_done. apply Readdir_events_incl.
Qed.

End Monotone.

(** X8.  A longer window loses no match: with [Invert] off, every name
    that a run prints with the threshold [Recent m] is printed by the same
    run with any threshold that is at least as long.  With [Invert] on it
    is the other way round. *)
Theorem longer_window_keeps_every_match
        (m : Matcher) (fs : FS) (args : list string) (r : time.Duration) :
  Recent m <= r ->
  (Invert m = false ->
   incl (outputs (trace (main_run m fs args)))
        (outputs (trace (main_run (with_Recent r m) fs args))))
  /\ (Invert m = true ->
      incl (outputs (trace (main_run (with_Recent r m) fs args)))
           (outputs (trace (main_run m fs args)))).
Proof.
  intros Hr. split; intros Hinv; apply main_run_incl;
    intros skipdotcheck prefix name fi; unfold entry_events, dot_filtered,
      hit_conditionb, display_name, with_Recent, elapsed;
    cbn [Invert IncludeDots NoSlash Recent Now]; rewrite Hinv;
    destruct (negb skipdotcheck && negb (IncludeDots m)
              && dotfile (filepath.Base name)); try apply incl_refl.
  - destruct (Z.ltb_spec (time.Sub (Now m) (ModTime fi)) (Recent m)) as [Hlt | Hge].
    + destruct (Z.ltb_spec (time.Sub (Now m) (ModTime fi)) r); [apply incl_refl | lia].
    + apply incl_nil_l.
  - destruct (Z.leb_spec r (time.Sub (Now m) (ModTime fi))) as [Hle | Hgt].
    + destruct (Z.leb_spec (Recent m) (time.Sub (Now m) (ModTime fi)));
        [apply incl_refl | lia].
    + apply incl_nil_l.
Qed.

Lemma longer_window_keeps_every_match_witness :
  incl (outputs (trace (main_run Scenario.m0 Scenario.fs [])))
       (outputs (trace (main_run (with_Recent (30 * day) Scenario.m0) Scenario.fs []))).
Proof.
  destruct (longer_window_keeps_every_match Scenario.m0 Scenario.fs [] (30 * day))
    as [Hoff _].
  - vm_compute. discriminate.
  - exact (Hoff eq_refl).
Defined.

(** X9.  Including the dot files only adds names: every name that a run
    prints without [IncludeDots] is printed by the same run with it. *)
Theorem including_dots_keeps_every_match
        (m : Matcher) (fs : FS) (args : list string) :
  incl (outputs (trace (main_run (with_IncludeDots false m) fs args)))
       (outputs (trace (main_run (with_IncludeDots true m) fs args))).
Proof.
  apply main_run_incl. intros skipdotcheck prefix name fi.
  unfold entry_events, dot_filtered, hit_conditionb, display_name,
    with_IncludeDots, elapsed.
  cbn [Invert IncludeDots NoSlash Recent Now negb andb].
  rewrite andb_false_r. cbn [andb].
  destruct (negb skipdotcheck && true && dotfile (filepath.Base name));
    [apply incl_nil_l | apply incl_refl].
Qed.

Lemma Sub_sign (t u : time.Time) :
  (u <= t -> 0 <= time.Sub t u) /\ (t <= u -> time.Sub t u <= 0).
Proof.
  unfold time.Sub, time.minDuration, time.maxDuration, GoInt.minInt64, GoInt.maxInt64.
  cbv zeta.
  destruct (Z.ltb_spec (t - u) (- 2 ^ 63)), (Z.ltb_spec (2 ^ 63 - 1) (t - u)); lia.
Qed.

(** X10.  With a threshold that is zero or negative (as an overflowing
    total gives), an entry that was not modified after the reference time
    is never reported when [Invert] is off, and is reported whenever it
    passes the dot check when [Invert] is on. *)
Theorem threshold_not_positive
        (m : Matcher) (skipdotcheck : bool) (prefix name : string) (fi : FileInfo) :
  Recent m <= 0 -> ModTime fi <= Now m ->
  (Invert m = false ->
   trace (dostat m skipdotcheck prefix name fi) = [])
  /\ (Invert m = true -> dot_filtered m skipdotcheck name = false ->
      trace (dostat m skipdotcheck prefix name fi)
      = [EOut (display_name m prefix name fi)]).
Proof.
  intros Hr Hold. destruct (Sub_sign (Now m) (ModTime fi)) as [Hpos _].
  specialize (Hpos Hold).
  rewrite dostat_events. unfold trace, entry_events, hit_conditionb, elapsed.
  cbn [fst]. split.
  - intros ->. destruct (dot_filtered m skipdotcheck name); [reflexivity |].
    destruct (Z.ltb_spec (time.Sub (Now m) (ModTime fi)) (Recent m));
      [lia | reflexivity].
  - intros -> ->.
    destruct (Z.leb_spec (Recent m) (time.Sub (Now m) (ModTime fi)));
      [reflexivity | lia].
Qed.

Lemma threshold_not_positive_witness :
  trace (dostat (with_Recent (-9209810073709551616) Scenario.m0)
                false "." "c" Scenario.c) = [].
Proof.
  apply (threshold_not_positive
           (with_Recent (-9209810073709551616) Scenario.m0)
           false "."%string "c"%string Scenario.c).
  - vm_compute. discriminate.
  - vm_compute. discriminate.
  - reflexivity.
Defined.

(** X11.  An entry whose modification time is the reference time or
    later counts as recent for every positive threshold: with [Invert]
    off it is reported whenever it passes the dot check, and with [Invert]
    on it is never reported. *)
Theorem modified_in_the_future
        (m : Matcher) (skipdotcheck : bool) (prefix name : string) (fi : FileInfo) :
  0 < Recent m -> Now m <= ModTime fi ->
  (Invert m = true ->
   trace (dostat m skipdotcheck prefix name fi) = [])
  /\ (Invert m = false -> dot_filtered m skipdotcheck name = false ->
      trace (dostat m skipdotcheck prefix name fi)
      = [EOut (display_name m prefix name fi)]).
Proof.
  intros Hr Hnew. destruct (Sub_sign (Now m) (ModTime fi)) as [_ Hneg].
  specialize (Hneg Hnew).
  rewrite dostat_events. unfold trace, entry_events, hit_conditionb, elapsed.
  cbn [fst]. split.
  - intros ->. destruct (dot_filtered m skipdotcheck name); [reflexivity |].
    destruct (Z.leb_spec (Recent m) (time.Sub (Now m) (ModTime fi)));
      [lia | reflexivity].
  - intros -> ->.
    destruct (Z.ltb_spec (time.Sub (Now m) (ModTime fi)) (Recent m));
      [reflexivity | lia].
Qed.

Lemma modified_in_the_future_witness :
  trace (dostat Scenario.m0 true "" "later"
                (mkFileInfo "later" (Scenario.T + time.Hour) false))
  = [EOut "later"].
Proof.
  apply (modified_in_the_future Scenario.m0 true ""%string "later"%string
           (mkFileInfo "later" (Scenario.T + time.Hour) false)).
  - reflexivity.
  - vm_compute. discriminate.
  - reflexivity.
  - reflexivity.
Defined.

(** X12.  [Readdir] passes at most one error to [m.Log], and [Match] at
    most one for each of its arguments; [Readdir] prints at most one name
    for each entry it reads. *)
Theorem at_most_one_error_per_path (m : Matcher) (fs : FS) :
  (forall dname, (List.length (logged (trace (Readdir m fs dname))) <= 1)%nat)
  /\ (forall files,
         (List.length (logged (trace (Match m fs files))) <= List.length files)%nat)
  /\ (forall dname d,
         os_Open fs dname = inl d ->
         (List.length (outputs (trace (Readdir m fs dname)))
          <= List.length (entries_read d))%nat).
Proof.
  assert (Hscan : forall dname,
             (List.length (logged (Readdir_events m fs dname)) <= 1)%nat).
  { intros dname. unfold Readdir_events.
    destruct (os_Open fs dname) as [d | err]; [| apply Nat.le_refl].
    rewrite logged_app, logged_entries. unfold end_of_scan_events.
    destruct (error_eqb (end_of_scan d) io_EOF); cbn; lia. }
  split; [| split].
  - intros dname. rewrite Readdir_done. apply Hscan.
  - intros files. rewrite Match_events. unfold trace. cbn [fst].
    induction files as [| file files IH]; [apply Nat.le_refl |].
    cbn [flat_map List.length]. rewrite logged_app, length_app.
    assert (Hone : (List.length (logged (path_events m fs file)) <= 1)%nat).
    { unfold path_events. destruct (os_Stat fs file) as [fi | err]; [| apply Nat.le_refl].
      destruct (IsDir fi); [apply Hscan |].
      unfold entry_events. destruct (dot_filtered m true file); [cbn; lia |].
      destruct (hit_conditionb m fi); cbn; lia. }
    lia.
  - intros dname d Hopen. rewrite Readdir_done. unfold trace, Readdir_events.
    cbn [fst]. rewrite Hopen, outputs_app, outputs_end_of_scan, app_nil_r,
      outputs_entries, length_map.
    apply filter_length_le.
Qed.

Lemma at_most_one_error_per_path_witness :
  (List.length (outputs (trace (Readdir Scenario.m0 Scenario.fs "c"))) <= 3)%nat.
Proof.
  destruct (at_most_one_error_per_path Scenario.m0 Scenario.fs) as (_ & _ & H).
  apply (H "c"%string [([Scenario.d; Scenario.e; Scenario.dot_f], None);
                       ([], Some io_EOF)]).
  reflexivity.
Defined.

(* ================================================================== *)
(** ** The process: what is written, and the exit status *)

Lemma replay_quiet (print0 : bool) (t : list event) (st : Sinks) :
  replay true print0 t st
  = mkSinks (match outputs t with [] => matched st | _ :: _ => true end)
            (stdout st) (stderr st ++ logged t).
Proof.
  revert st. induction t as [| [name | err] t IH]; intros st.
  - cbn. rewrite app_nil_r. destruct st; reflexivity.
  - cbn [replay outputs logged]. rewrite IH. unfold main_Out. cbn.
    destruct (outputs t); reflexivity.
  - cbn [replay outputs logged]. rewrite IH. unfold main_Log. cbn.
    rewrite <- app_assoc. reflexivity.
Qed.

Lemma replay_print (print0 : bool) (t : list event) (st : Sinks) :
  replay false print0 t st
  = mkSinks (matched st)
            (stdout st ++ terminated (if print0 then nul else newline) (outputs t))
            (stderr st ++ logged t).
Proof.
  revert st. induction t as [| [name | err] t IH]; intros st.
  - cbn. rewrite app_nil_r, append_empty_r. destruct st; reflexivity.
  - cbn [replay outputs logged terminated]. rewrite IH. unfold main_Out.
    destruct print0; cbn [matched stdout stderr];
      rewrite !string_append_assoc; reflexivity.
  - cbn [replay outputs logged]. rewrite IH. unfold main_Log. cbn.
    rewrite <- app_assoc. reflexivity.
Qed.

Lemma main_run_done (m : Matcher) (fs : FS) (args : list string) :
  snd (main_run m fs args) = Some tt.
Proof.
  unfold main_run. destruct (0 <? List.length args)%nat.
  - rewrite Match_events. reflexivity.
  - rewrite Readdir_done. reflexivity.
Qed.

Lemma main_Ok_done (now : time.Time) (fs : FS) (fl : Flags) (args : list string)
      (c : Eff unit) :
  main now fs fl args = Ok c -> c = (trace c, Some tt).
Proof.
  unfold main. destruct (main_Recent _ _ _ _ _ _ _) as [r | msg]; [| discriminate].
  intros [= <-].
  match goal with
  | |- main_run ?m fs args = _ =>
      pose proof (main_run_done m fs args) as Hdone;
      destruct (main_run m fs args) as [t res]
  end.
  cbn [snd] in Hdone. subst res. reflexivity.
Qed.

Lemma main_process_quiet (now : time.Time) (fs : FS) (fl : Flags)
      (args : list string) (c : Eff unit) :
  flag_q fl = true -> main now fs fl args = Ok c ->
  main_process now fs fl args
  = match outputs (trace c) with
    | [] => (mkSinks false "" (logged (trace c)), Exit 1)
    | _ :: _ => (mkSinks true "" (logged (trace c)), Exit 0)
    end.
Proof.
  intros Hq Hmain. unfold main_process.
  rewrite Hmain, (main_Ok_done _ _ _ _ _ Hmain), Hq, replay_quiet.
  unfold trace. cbn [fst matched stdout stderr app andb].
  destruct (outputs (fst c)); reflexivity.
Qed.

Lemma main_process_print (now : time.Time) (fs : FS) (fl : Flags)
      (args : list string) (c : Eff unit) :
  flag_q fl = false -> main now fs fl args = Ok c ->
  main_process now fs fl args
  = (mkSinks false
       (terminated (if flag_print0 fl then nul else newline) (outputs (trace c)))
       (logged (trace c)),
     Exit 0).
Proof.
  intros Hq Hmain. unfold main_process.
  rewrite Hmain, (main_Ok_done _ _ _ _ _ Hmain), Hq, replay_print.
  reflexivity.
Qed.

(** X13.  With [-q] nothing is written to standard output, the errors
    are still logged, and the exit status is 0 when at least one name was
    matched and 1 when none was. *)
Theorem quiet_run (now : time.Time) (fs : FS) (fl : Flags)
        (args : list string) (c : Eff unit) :
  flag_q fl = true -> main now fs fl args = Ok c ->
  stdout (fst (main_process now fs fl args)) = ""%string
  /\ stderr (fst (main_process now fs fl args)) = logged (trace c)
  /\ snd (main_process now fs fl args)
     = match outputs (trace c) with [] => Exit 1 | _ :: _ => Exit 0 end.
Proof.
  intros Hq Hmain. rewrite (main_process_quiet now fs fl args c Hq Hmain).
  destruct (outputs (trace c)); repeat split; reflexivity.
Qed.

Lemma quiet_run_witness :
  snd (main_process Scenario.T Scenario.fs
         (mkFlags false false false true false 0 0 0 0 0) ["b"; "nope"]%string)
  = Exit 1
  /\ stderr (fst (main_process Scenario.T Scenario.fs
                    (mkFlags false false false true false 0 0 0 0 0)
                    ["b"; "nope"]%string))
     = [Scenario.ENOENT].
Proof.
  destruct (quiet_run Scenario.T Scenario.fs
              (mkFlags false false false true false 0 0 0 0 0) ["b"; "nope"]%string
              ([ELog Scenario.ENOENT], Some tt))
    as (_ & Herr & Hexit); [reflexivity .. |].
  split; [exact Hexit | exact Herr].
Defined.

(** X14.  Without [-q], a run that is not stopped by a fatal
    configuration error ends with status 0, also when nothing matched and
    when errors were logged; standard output holds the matched names in
    order, each followed by a newline, or by a NUL byte under [-print0]. *)
Theorem printing_run (now : time.Time) (fs : FS) (fl : Flags)
        (args : list string) (c : Eff unit) :
  flag_q fl = false -> main now fs fl args = Ok c ->
  stdout (fst (main_process now fs fl args))
  = terminated (if flag_print0 fl then String "000" "" else String "010" "")
               (outputs (trace c))
  /\ stderr (fst (main_process now fs fl args)) = logged (trace c)
  /\ snd (main_process now fs fl args) = Exit 0.
Proof.
  intros Hq Hmain. rewrite (main_process_print now fs fl args c Hq Hmain).
  repeat split; reflexivity.
Qed.

Lemma printing_run_witness :
  main_process Scenario.T Scenario.fs
    (mkFlags true true false false true 0 0 2 0 0) ["b"; "c"; "nope"]%string
  = (mkSinks false
       ("b" ++ nul ++ "c/e" ++ nul ++ "c/.f" ++ nul)%string
       [Scenario.ENOENT],
     Exit 0).
Proof.
  pose proof (printing_run Scenario.T Scenario.fs
                (mkFlags true true false false true 0 0 2 0 0)
                ["b"; "c"; "nope"]%string
                ([EOut "b"; EOut "c/e"; EOut "c/.f"; ELog Scenario.ENOENT], Some tt)
                eq_refl eq_refl) as (Hout & Herr & Hexit).
  destruct (main_process Scenario.T Scenario.fs
              (mkFlags true true false false true 0 0 2 0 0)
              ["b"; "c"; "nope"]%string) as [[mt out err] ending] eqn:Hrun.
  cbn [fst snd stdout stderr] in Hout, Herr, Hexit. subst out err ending.
  assert (Hm : mt = false) by (vm_compute in Hrun; congruence).
  subst mt. reflexivity.
Defined.

Lemma records_one (sep : ascii) (current name rest : string) :
  occurs sep name = false ->
  records sep current (name ++ String sep rest)
  = (current ++ name)%string :: records sep "" rest.
Proof.
  revert current. induction name as [| c name IH]; intros current Hno.
  - cbn. rewrite Ascii.eqb_refl, append_empty_r. reflexivity.
  - cbn [occurs] in Hno. apply orb_false_elim in Hno. destruct Hno as [Hc Hname].
    cbn [append records]. rewrite Hc, IH by exact Hname.
    rewrite string_append_assoc. reflexivity.
Qed.

Lemma records_terminated (sep : ascii) (names : list string) :
  Forall (fun n => occurs sep n = false) names ->
  records sep "" (terminated (String sep "") names) = names.
Proof.
  induction 1 as [| n names Hn _ IH]; [reflexivity |].
  cbn [terminated]. change (String sep "" ++ terminated (String sep "") names)%string
    with (String sep (terminated (String sep "") names)).
  rewrite records_one by exact Hn. rewrite IH. reflexivity.
Qed.

(** X15.  The output can be cut back into the matched names: when no
    matched name holds the terminating byte (NUL under [-print0], newline
    otherwise), cutting standard output at that byte gives the matched
    names, in order.  No file name holds a NUL byte, which is what
    [-print0] is for. *)
Theorem output_cuts_back_into_names (now : time.Time) (fs : FS) (fl : Flags)
        (args : list string) (c : Eff unit) :
  flag_q fl = false -> main now fs fl args = Ok c ->
  Forall (fun n => occurs (if flag_print0 fl then "000" else "010")%char n = false)
         (outputs (trace c)) ->
  records (if flag_print0 fl then "000" else "010")%char ""
          (stdout (fst (main_process now fs fl args)))
  = outputs (trace c).
Proof.
  intros Hq Hmain Hnames. rewrite (main_process_print now fs fl args c Hq Hmain).
  cbn [fst stdout]. unfold nul, newline.
  destruct (flag_print0 fl); apply records_terminated; exact Hnames.
Qed.

Lemma output_cuts_back_into_names_witness :
  records "000" ""
          (stdout (fst (main_process Scenario.T Scenario.fs
                          (mkFlags true true false false true 0 0 2 0 0)
                          ["b"; "c"]%string)))
  = ["b"; "c/e"; "c/.f"]%string.
Proof.
  apply (output_cuts_back_into_names Scenario.T Scenario.fs
           (mkFlags true true false false true 0 0 2 0 0) ["b"; "c"]%string
           ([EOut "b"; EOut "c/e"; EOut "c/.f"], Some tt)).
  - reflexivity.
  - reflexivity.
  - repeat constructor.
Defined.

(* ================================================================== *)
(** ** The flag listing: order and layout *)

Lemma string_compare_refl (s : string) : String.compare s s = Eq.
Proof.
  induction s as [| c s IH]; [reflexivity |].
  cbn. unfold Ascii.compare. rewrite N.compare_refl. exact IH.
Qed.

Lemma ascii_compare_lt_trans (a b c : ascii) :
  Ascii.compare a b = Lt -> Ascii.compare b c = Lt -> Ascii.compare a c = Lt.
Proof.
  unfold Ascii.compare. rewrite !N.compare_lt_iff. apply N.lt_trans.
Qed.

Lemma string_compare_lt_trans (a b c : string) :
  String.compare a b = Lt -> String.compare b c = Lt -> String.compare a c = Lt.
Proof.
  revert b c. induction a as [| x a IH]; intros [| y b] [| z c]; cbn;
    try discriminate; try reflexivity.
  destruct (Ascii.compare x y) eqn:Exy; [| | discriminate].
  - apply Ascii.compare_eq_iff in Exy. subst y.
    destruct (Ascii.compare x z); [apply IH | reflexivity | discriminate].
  - intros _. destruct (Ascii.compare y z) eqn:Eyz; [| | discriminate].
    + apply Ascii.compare_eq_iff in Eyz. subst z. rewrite Exy. reflexivity.
    + rewrite (ascii_compare_lt_trans x y z Exy Eyz). reflexivity.
Qed.

Lemma string_ltb_irrefl (s : string) : String.ltb s s = false.
Proof. unfold String.ltb. rewrite string_compare_refl. reflexivity. Qed.

Lemma string_ltb_trans (a b c : string) :
  String.ltb a b = true -> String.ltb b c = true -> String.ltb a c = true.
Proof.
  unfold String.ltb.
  destruct (String.compare a b) eqn:Hab; try discriminate.
  destruct (String.compare b c) eqn:Hbc; try discriminate.
  rewrite (string_compare_lt_trans a b c Hab Hbc). reflexivity.
Qed.

Lemma string_ltb_asym (a b : string) :
  String.ltb a b = true -> String.ltb b a = false.
Proof.
  unfold String.ltb. rewrite (String.compare_antisym b a).
  destruct (String.compare a b); cbn; congruence.
Qed.

(** Two names of which none is below the other are the same name. *)
Lemma string_ltb_total (a b : string) :
  String.ltb a b = false -> String.ltb b a = false -> a = b.
Proof.
  unfold String.ltb. rewrite (String.compare_antisym b a).
  destruct (String.compare a b) eqn:Hab; cbn; try discriminate.
  intros _ _. apply String.compare_eq_iff. exact Hab.
Qed.

Section UsageOrder.

Lemma usage_less_irrefl (a : usage) : usage_less a a = false.
Proof.
  unfold usage_less. rewrite Bool.eqb_reflx. apply string_ltb_irrefl.
Qed.

Lemma usage_less_asym (a b : usage) :
  usage_less a b = true -> usage_less b a = false.
Proof.
  unfold usage_less. destruct (u_first a), (u_first b); cbn;
    try discriminate; try reflexivity; apply string_ltb_asym.
Qed.

Lemma usage_less_trans (a b c : usage) :
  usage_less a b = true -> usage_less b c = true -> usage_less a c = true.
Proof.
  unfold usage_less. destruct (u_first a), (u_first b), (u_first c); cbn;
    try discriminate; try reflexivity; apply string_ltb_trans.
Qed.

Lemma usage_less_neither (a b : usage) :
  usage_less a b = false -> usage_less b a = false ->
  u_first a = u_first b /\ u_name a = u_name b.
Proof.
  unfold usage_less. destruct (u_first a), (u_first b); cbn;
    try discriminate; intros H1 H2; (split; [reflexivity |]);
    apply string_ltb_total; assumption.
Qed.

Lemma at_index_in_range (u : usages) (i : Z) :
  at_index u i <> None <-> 0 <= i < Len u.
Proof.
  unfold at_index, Len. destruct (Z.ltb_spec i 0) as [Hneg | Hpos].
  - split; [congruence | lia].
  - rewrite nth_error_Some. lia.
Qed.

Lemma in_order_tail (l1 l2 : usages) : in_order (l1 ++ l2) -> in_order l2.
Proof.
  induction l1 as [| a l1 IH]; [auto |]. cbn. intros [_ H]. auto.
Qed.

End UsageOrder.

(** X16.  [Less] is a strict order on the elements of the slice: no
    element is less than itself, two elements are never each less than the
    other, the relation is transitive, and two elements of which none is
    less than the other agree on [first] and on [name].  [Less] panics
    exactly when an index is out of range. *)
Theorem Less_is_a_strict_order (u : usages) (i j k : Z) (a b c : usage) :
  at_index u i = Some a -> at_index u j = Some b -> at_index u k = Some c ->
  Less u i i = Some false
  /\ (Less u i j = Some true -> Less u j i = Some false)
  /\ (Less u i j = Some true -> Less u j k = Some true -> Less u i k = Some true)
  /\ (Less u i j = Some false -> Less u j i = Some false ->
      u_first a = u_first b /\ u_name a = u_name b)
  /\ (forall i' j', Less u i' j' = None
                    <-> ~ (0 <= i' < Len u /\ 0 <= j' < Len u)).
Proof.
  intros Hi Hj Hk. unfold Less. rewrite Hi, Hj, Hk.
  split; [rewrite usage_less_irrefl; reflexivity |].
  split; [intros [= H]; rewrite (usage_less_asym a b H); reflexivity |].
  split; [intros [= H1] [= H2]; rewrite (usage_less_trans a b c H1 H2); reflexivity |].
  split; [intros [= H1] [= H2]; apply usage_less_neither; assumption |].
  intros i' j'.
  pose proof (at_index_in_range u i') as Hi'.
  pose proof (at_index_in_range u j') as Hj'.
  destruct (at_index u i') as [a' |], (at_index u j') as [b' |].
  - split; [discriminate |]. intros Hno. exfalso. apply Hno.
    split; [apply Hi' | apply Hj']; discriminate.
  - split; [| reflexivity]. intros _ [_ Hin]. apply Hj' in Hin. congruence.
  - split; [| reflexivity]. intros _ [Hin _]. apply Hi' in Hin. congruence.
  - split; [| reflexivity]. intros _ [Hin _]. apply Hi' in Hin. congruence.
Qed.

Lemma Less_is_a_strict_order_witness :
  Less [mkUsage "d" "  -d days" true; mkUsage "v" "  -v      invert matches" false;
        mkUsage "." "  -.      include dot files" false] 1 0
  = Some false.
Proof.
  destruct (Less_is_a_strict_order
              [mkUsage "d" "  -d days" true;
               mkUsage "v" "  -v      invert matches" false;
               mkUsage "." "  -.      include dot files" false] 0 1 2
              (mkUsage "d" "  -d days" true)
              (mkUsage "v" "  -v      invert matches" false)
              (mkUsage "." "  -.      include dot files" false))
    as (_ & Hasym & _); [reflexivity .. |].
  apply Hasym. reflexivity.
Defined.

(** X17.  In a listing ordered by [Less], the flags that take a value
    ([first] set) come before the boolean flags, and among flags of the
    same kind no name comes before a smaller one. *)
Theorem ordered_listing_groups (l1 l2 : usages) (a b : usage) :
  in_order (l1 ++ a :: l2) -> In b l2 ->
  (u_first b = true -> u_first a = true)
  /\ (u_first a = u_first b -> String.ltb (u_name b) (u_name a) = false).
Proof.
  intros Hord Hin. apply in_order_tail in Hord. destruct Hord as [Hhead _].
  specialize (Hhead b Hin). unfold usage_less in Hhead.
  destruct (u_first a), (u_first b); cbn in Hhead |- *; split;
    try discriminate; try reflexivity; intros _; exact Hhead.
Qed.

Lemma ordered_listing_groups_witness :
  String.ltb "v" "." = false.
Proof.
  destruct (ordered_listing_groups
              [mkUsage "d" "  -d days" true]
              [mkUsage "v" "  -v      invert matches" false]
              (mkUsage "." "  -.      include dot files" false)
              (mkUsage "v" "  -v      invert matches" false))
    as [_ Hnames].
  - cbn. split; [| split; [| split; [| exact I]]].
    + intros b [<- | [<- | []]]; reflexivity.
    + intros b [<- | []]. reflexivity.
    + intros b [].
  - left. reflexivity.
  - apply Hnames. reflexivity.
Defined.

(** X18.  The order of the listing does not depend on how [sort.Sort]
    sorts: the flags having distinct names, two listings that hold the same
    elements and are both ordered by [Less] are the same listing. *)
Theorem ordered_listing_is_unique (l1 l2 : usages) :
  Permutation l1 l2 -> NoDup (map u_name l1) ->
  in_order l1 -> in_order l2 ->
  l1 = l2.
Proof.
  revert l2. induction l1 as [| a l1 IH]; intros l2 Hperm Hnames H1 H2.
  - symmetry. apply Permutation_nil. exact Hperm.
  - destruct l2 as [| b l2].
    + apply Permutation_sym, Permutation_nil in Hperm. discriminate Hperm.
    + assert (Hab : a = b).
      { assert (Ha : In a (b :: l2))
          by (apply (Permutation_in a Hperm); left; reflexivity).
        assert (Hb : In b (a :: l1))
          by (apply (Permutation_in b (Permutation_sym Hperm)); left; reflexivity).
        destruct Ha as [Ha | Ha]; [symmetry; exact Ha |].
        destruct Hb as [Hb | Hb]; [exact Hb |].
        destruct H1 as [H1 _], H2 as [H2 _].
        destruct (usage_less_neither a b (H2 a Ha) (H1 b Hb)) as [_ Hname].
        inversion Hnames as [| ? ? Hnotin _]; subst.
        exfalso. apply Hnotin. rewrite Hname. apply in_map. exact Hb. }
      subst b. f_equal. apply IH.
      * apply (Permutation_cons_inv Hperm).
      * inversion Hnames; assumption.
      * apply H1.
      * apply H2.
Qed.

Lemma ordered_listing_is_unique_witness :
  [mkUsage "d" "  -d days" true; mkUsage "v" "  -v      invert matches" false]
  = [mkUsage "d" "  -d days" true; mkUsage "v" "  -v      invert matches" false].
Proof.
  apply ordered_listing_is_unique.
  - apply Permutation_refl.
  - repeat constructor; cbn; intuition discriminate.
  - cbn. split; [| split; [| exact I]].
    + intros b [<- | []]. reflexivity.
    + intros b [].
  - cbn. split; [| split; [| exact I]].
    + intros b [<- | []]. reflexivity.
    + intros b [].
Defined.

Lemma store_length (u : usages) (i : nat) (x : usage) :
  List.length (store u i x) = List.length u.
Proof.
  revert i. induction u as [| h t IH]; intros [| i]; cbn; try reflexivity.
  rewrite IH. reflexivity.
Qed.

Lemma nth_error_store (u : usages) (i k : nat) (x : usage) :
  (i < List.length u)%nat ->
  nth_error (store u i x) k = if (k =? i)%nat then Some x else nth_error u k.
Proof.
  revert i k. induction u as [| h t IH]; intros i k Hi; [cbn in Hi; lia |].
  destruct i as [| i], k as [| k]; cbn; try reflexivity.
  apply IH. cbn in Hi. lia.
Qed.

Lemma at_index_Some (u : usages) (i : Z) (a : usage) :
  at_index u i = Some a ->
  0 <= i /\ (Z.to_nat i < List.length u)%nat /\ nth_error u (Z.to_nat i) = Some a.
Proof.
  unfold at_index. destruct (Z.ltb_spec i 0) as [Hneg | Hpos]; [discriminate |].
  intros Hnth. split; [exact Hpos |]. split; [| exact Hnth].
  apply nth_error_Some. congruence.
Qed.

(** What [Swap] stores at each index. *)
Lemma Swap_nth_error (u u' : usages) (i j : Z) (a b : usage) :
  at_index u i = Some a -> at_index u j = Some b ->
  Swap u i j = Some u' ->
  forall k, nth_error u' k
            = if (k =? Z.to_nat i)%nat then Some b
              else if (k =? Z.to_nat j)%nat then Some a
              else nth_error u k.
Proof.
  intros Hi Hj. unfold Swap. rewrite Hi, Hj. intros [= <-] k.
  apply at_index_Some in Hi, Hj.
  destruct Hi as (_ & Hi & _), Hj as (_ & Hj & _).
  rewrite nth_error_store by (rewrite store_length; exact Hi).
  rewrite nth_error_store by exact Hj. reflexivity.
Qed.

(** X19.  [Swap] exchanges the elements at the two indices and leaves
    the others and the length as they are; swapping the same two indices
    again gives the slice back.  [Swap] panics exactly when an index is out
    of range. *)
Theorem Swap_exchanges (u u' : usages) (i j : Z) :
  Swap u i j = Some u' ->
  Len u' = Len u
  /\ at_index u' i = at_index u j
  /\ at_index u' j = at_index u i
  /\ (forall k, k <> i -> k <> j -> at_index u' k = at_index u k)
  /\ Swap u' i j = Some u
  /\ (forall i' j', Swap u i' j' = None
                    <-> ~ (0 <= i' < Len u /\ 0 <= j' < Len u)).
Proof.
  intros Hswap.
  destruct (at_index u i) as [a |] eqn:Hi;
    [| unfold Swap in Hswap; rewrite Hi in Hswap; discriminate].
  destruct (at_index u j) as [b |] eqn:Hj;
    [| unfold Swap in Hswap; rewrite Hi, Hj in Hswap; discriminate].
  pose proof (Swap_nth_error u u' i j a b Hi Hj Hswap) as Hnth.
  pose proof (at_index_Some u i a Hi) as (Hi0 & Hilen & Hia).
  pose proof (at_index_Some u j b Hj) as (Hj0 & Hjlen & Hjb).
  assert (Hlen : List.length u' = List.length u).
  { unfold Swap in Hswap. rewrite Hi, Hj in Hswap. injection Hswap as <-.
    rewrite !store_length. reflexivity. }
  assert (Hi' : at_index u' i = Some b).
  { unfold at_index. destruct (Z.ltb_spec i 0); [lia |].
    rewrite Hnth, Nat.eqb_refl. reflexivity. }
  assert (Hj' : at_index u' j = Some a).
  { unfold at_index. destruct (Z.ltb_spec j 0); [lia |].
    rewrite Hnth, Nat.eqb_refl.
    destruct (Nat.eqb_spec (Z.to_nat j) (Z.to_nat i)) as [Heq | _]; [| reflexivity].
    rewrite <- Heq in Hia. congruence. }
  split; [unfold Len; rewrite Hlen; reflexivity |].
  split; [congruence |]. split; [congruence |]. split; [| split].
  - intros k Hki Hkj. unfold at_index. destruct (Z.ltb_spec k 0); [reflexivity |].
    rewrite Hnth.
    destruct (Nat.eqb_spec (Z.to_nat k) (Z.to_nat i)); [lia |].
    destruct (Nat.eqb_spec (Z.to_nat k) (Z.to_nat j)); [lia | reflexivity].
  - destruct (Swap u' i j) as [u'' |] eqn:Hback;
      [| unfold Swap in Hback; rewrite Hi', Hj' in Hback; discriminate].
    f_equal. apply nth_error_ext. intros k.
    rewrite (Swap_nth_error u' u'' i j b a Hi' Hj' Hback k), Hnth.
    destruct (Nat.eqb_spec k (Z.to_nat i)) as [-> | _]; [symmetry; exact Hia |].
    destruct (Nat.eqb_spec k (Z.to_nat j)) as [-> | _]; [symmetry; exact Hjb |].
    reflexivity.
  - intros i' j'. unfold Swap.
    pose proof (at_index_in_range u i') as Hr1.
    pose proof (at_index_in_range u j') as Hr2.
    destruct (at_index u i') as [a' |], (at_index u j') as [b' |].
    + split; [discriminate |]. intros Hno. exfalso. apply Hno.
      split; [apply Hr1 | apply Hr2]; discriminate.
    + split; [| reflexivity]. intros _ [_ Hin]. apply Hr2 in Hin. congruence.
    + split; [| reflexivity]. intros _ [Hin _]. apply Hr1 in Hin. congruence.
    + split; [| reflexivity]. intros _ [Hin _]. apply Hr1 in Hin. congruence.
Qed.

Lemma Swap_exchanges_witness :
  Swap [mkUsage "v" "  -v      invert matches" false; mkUsage "d" "  -d days" true]
       0 1
  = Some [mkUsage "d" "  -d days" true; mkUsage "v" "  -v      invert matches" false].
Proof.
  destruct (Swap_exchanges
              [mkUsage "d" "  -d days" true;
               mkUsage "v" "  -v      invert matches" false]
              [mkUsage "v" "  -v      invert matches" false;
               mkUsage "d" "  -d days" true] 0 1)
    as (_ & _ & _ & _ & Hback & _); [reflexivity |].
  exact Hback.
Defined.

Lemma string_length_append (a b : string) :
  String.length (a ++ b) = (String.length a + String.length b)%nat.
Proof.
  induction a as [| c a IH]; cbn; [reflexivity | rewrite IH; reflexivity].
Qed.

Lemma spaces_length (n : nat) : String.length (spaces n) = n.
Proof.
  induction n as [| n IH]; cbn; [reflexivity | rewrite IH; reflexivity].
Qed.

(** The padding loop, run for enough turns, fills up to ten bytes. *)
Lemma pad_loop_spaces (turns : nat) (s : string) :
  (10 - String.length s <= turns)%nat ->
  pad_loop turns s = (s ++ spaces (10 - String.length s))%string.
Proof.
  revert s. induction turns as [| turns IH]; intros s Hturns.
  - replace (10 - String.length s)%nat with 0%nat by lia.
    cbn. rewrite append_empty_r. reflexivity.
  - cbn [pad_loop]. destruct (Nat.ltb_spec (String.length s) 10) as [Hlt | Hge].
    + rewrite IH by (rewrite string_length_append; cbn [String.length]; lia).
      rewrite string_length_append. cbn [String.length].
      replace (10 - String.length s)%nat
        with (S (10 - (String.length s + 1)))%nat by lia.
      cbn [spaces]. rewrite string_append_assoc. reflexivity.
    + replace (10 - String.length s)%nat with 0%nat by lia.
      cbn. rewrite append_empty_r. reflexivity.
Qed.

(** X20.  The line of a flag in the listing starts with two spaces, a
    dash and the flag's name, followed by a space and the value's name
    when there is one.  For a boolean flag the line is then filled with
    spaces up to ten bytes and the usage text follows, so that the usage
    texts of flags whose head is at most ten bytes long all begin in the
    same column; the line of a flag that takes a value carries no usage
    text.  A flag is listed first when it is not boolean. *)
Theorem usage_line_layout (fName name usageString : string) :
  let head :=
    ("  -" ++ fName
     ++ (if (0 <? String.length name)%nat then " " ++ name else ""))%string in
  usage_of_flag fName name usageString true
  = mkUsage fName
            (head ++ spaces (10 - String.length head) ++ usageString)%string
            false
  /\ String.length (head ++ spaces (10 - String.length head))
     = Nat.max 10 (String.length head)
  /\ usage_of_flag fName name usageString false = mkUsage fName head true.
Proof.
  intros head.
  assert (Hhead : (if (0 <? String.length name)%nat
                   then (("  -" ++ fName) ++ (" " ++ name))%string
                   else ("  -" ++ fName)%string) = head).
  { unfold head. destruct (0 <? String.length name)%nat.
    - reflexivity.
    - cbn [append]. rewrite append_empty_r. reflexivity. }
  split; [| split].
  - unfold usage_of_flag. cbv zeta. rewrite Hhead.
    rewrite pad_loop_spaces by lia. rewrite string_append_assoc. reflexivity.
  - rewrite string_length_append, spaces_length. lia.
  - unfold usage_of_flag. cbv zeta. rewrite Hhead. reflexivity.
Qed.

(** X21.  Once [flag.Parse()] has returned, [main] ends in one of four
    ways and never with a panic: with the message of the overflow guard,
    with the message about [-print0] and [-q] (only when the guard has
    passed), with status 1 (only under [-q]), or with status 0.  When it
    ends with a message, no name was matched and no error logged.  (A
    command line that [flag.Parse()] refuses ends the process inside the
    flag package, before this part of [main].) *)
Theorem main_endings (now : time.Time) (fs : FS) (fl : Flags) (args : list string) :
  match snd (main_process now fs fl args) with
  | FatalExit msg =>
      fst (main_process now fs fl args) = mkSinks false "" []
      /\ ((msg = "Maximum duration is 290 years. How old are your files?"%string
           /\ overflowCheck (flag_y fl) (flag_m fl) (flag_d fl) (flag_h fl) (flag_min fl)
              = Fatal msg)
          \/ (msg = "-print0 and -q are fundamentally opposed ideas."%string
              /\ overflowCheck (flag_y fl) (flag_m fl) (flag_d fl) (flag_h fl)
                               (flag_min fl) = Ok tt
              /\ flag_print0 fl = true /\ flag_q fl = true))
  | Exit status =>
      (status = 0 \/ (status = 1 /\ flag_q fl = true))
      /\ flag_print0 fl && flag_q fl = false
  | Panicked => False
  end.
Proof.
  unfold main_process.
  destruct (main now fs fl args) as [c | msg] eqn:Hmain.
  - rewrite (main_Ok_done _ _ _ _ _ Hmain).
    assert (Hflags : flag_print0 fl && flag_q fl = false).
    { unfold main in Hmain.
      destruct (main_Recent _ _ _ _ _ _ _) as [r | ?] eqn:Hr; [| discriminate].
      apply main_Recent_Ok in Hr. apply Hr. }
    destruct (flag_q fl) eqn:Hq; cbn [andb].
    + destruct (negb _); cbn [snd]; split; auto.
    + cbn [snd]. split; auto.
  - cbn [fst snd]. split; [reflexivity |].
    unfold main, main_Recent in Hmain.
    destruct (overflowCheck _ _ _ _ _) as [[] | msg'] eqn:Hguard.
    + destruct (flag_print0 fl) eqn:Hp, (flag_q fl) eqn:Hq; cbn [andb] in Hmain;
        try discriminate Hmain.
      injection Hmain as <-. right. repeat split; reflexivity.
    + injection Hmain as <-. left. split; [| reflexivity].
      unfold overflowCheck in Hguard. destruct (290 <? _); [| discriminate].
      injection Hguard as <-. reflexivity.
Qed.

(** X22.  Without arguments and without time flags, [recent] does what
    [recent -d 1 .] does, whatever the other flags, as long as [.] is a
    directory. *)
Theorem default_is_one_day_here
        (now : time.Time) (fs : FS) (fi : FileInfo)
        (v dots noslash q print0 : bool) :
  os_Stat fs "." = inl fi -> IsDir fi = true ->
  main_process now fs (mkFlags v dots noslash q print0 0 0 0 0 0) []
  = main_process now fs (mkFlags v dots noslash q print0 0 0 1 0 0) ["."%string].
Proof.
  intros Hstat Hdir.
  assert (Hmain : main now fs (mkFlags v dots noslash q print0 0 0 0 0 0) []
                  = main now fs (mkFlags v dots noslash q print0 0 0 1 0 0)
                         ["."%string]).
  { unfold main, main_Recent.
    cbn [flag_v flag_dot flag_noslash flag_q flag_print0
         flag_min flag_h flag_d flag_m flag_y].
    change (overflowCheck 0 0 0 0 0) with (Ok tt : outcome unit).
    change (overflowCheck 0 0 1 0 0) with (Ok tt : outcome unit).
    cbv iota. destruct (print0 && q); [reflexivity |].
    cbn [allZero Z.eqb negb]. f_equal.
    unfold main_run. cbn [List.length Nat.ltb Nat.leb].
    rewrite Match_events, Readdir_done. cbn [flat_map]. unfold path_events.
    rewrite Hstat, Hdir, app_nil_r. reflexivity. }
  unfold main_process. rewrite Hmain. reflexivity.
Qed.

Lemma default_is_one_day_here_witness :
  main_process Scenario.T
    (with_Stat "." (inl (mkFileInfo "." Scenario.T true)) Scenario.fs)
    Scenario.no_flags []
  = main_process Scenario.T
      (with_Stat "." (inl (mkFileInfo "." Scenario.T true)) Scenario.fs)
      (mkFlags false false false false false 0 0 1 0 0) ["."%string].
Proof.
  apply (default_is_one_day_here Scenario.T
           (with_Stat "." (inl (mkFileInfo "." Scenario.T true)) Scenario.fs)
           (mkFileInfo "." Scenario.T true)); reflexivity.
Defined.
